(** * SelORecon: aerial image items (aerial_item.py)

    A shallow embedding of the parts of [AerialImage] that the design
    contract of the automatic georeferencing workflow talks about:

    - [AerialImage.__georeference], with the Qt setters it calls and the
      [itemChange] notifications they trigger;
    - [AerialImage.wheelEvent], the interactive zoom / rotation;
    - [AerialImage.__requestPixMap], [__pixMapReady] and [paint], the
      latest-wins delivery of decoded pixmaps;

    and of what surrounds them in the life of an item:

    - [AerialImage.__init__], [__deriveAvailability], [__findPreview],
      [__resetTransform], [contextMenuEvent] and the events of the mouse,
      with the invariants that they keep between item and database;
    - [updateZValue], the rules for z-stacking;
    - [AerialObject.__setVisualization], [__showAsImage] and the double
      clicks, which show an aerial as image or as point.

    Python floats are kept abstract behind the interface [Scalar]; the
    model is instantiated with the real numbers (idealised arithmetic, used
    for the algebraic facts) and with binary64 primitive floats (used to run
    the model). *)

From Stdlib Require Import ZArith List String Bool Lia.
From Stdlib Require Import Reals Lra.
From Stdlib Require PrimFloat Uint63 Floats.
Import ListNotations.

Set Implicit Arguments.

(* ------------------------------------------------------------------ *)
(** ** Numbers *)

(** The operations on Python / numpy / Qt floating point numbers that the
    modelled code uses. *)
Class Scalar (F : Type) : Type := {
  of_Z : Z -> F;              (* an int used where a float is expected *)
  fadd : F -> F -> F;
  fsub : F -> F -> F;
  fmul : F -> F -> F;
  fdiv : F -> F -> F;
  fneg : F -> F;
  fabs : F -> F;              (* abs(), numpy.abs *)
  fmax : F -> F -> F;         (* one step of numpy's max reduction *)
  fsqrt : F -> F;             (* [x ** .5] *)
  fltb : F -> F -> bool;      (* [<] *)
  feqb : F -> F -> bool;      (* [==] on two qreal *)
  fuzzy_eqb : F -> F -> bool  (* the comparison of one coordinate in
                                 Qt's QPointF::operator== *)
}.

Declare Scope scalar_scope.
Delimit Scope scalar_scope with sc.
Notation "a + b" := (fadd a b) : scalar_scope.
Notation "a - b" := (fsub a b) : scalar_scope.
Notation "a * b" := (fmul a b) : scalar_scope.
Notation "a / b" := (fdiv a b) : scalar_scope.
Notation "- a" := (fneg a) : scalar_scope.
Notation "a <? b" := (fltb a b) : scalar_scope.

(** The comparisons Qt uses to skip a setter call that would change
    nothing are symmetric. *)
Class ScalarCompareSym (F : Type) {SF : Scalar F} : Prop := {
  feqb_sym : forall a b : F, feqb a b = feqb b a;
  fuzzy_eqb_sym : forall a b : F, fuzzy_eqb a b = fuzzy_eqb b a
}.
Arguments ScalarCompareSym F {SF}.

(** The elementary functions behind [1.1 ** numSteps] and
    [QTransform.rotate]. *)
Class Elementary (F : Type) : Type := {
  fpow : F -> F -> F;         (* [a ** b] *)
  fsin : F -> F;              (* qSin, radians *)
  fcos : F -> F;              (* qCos, radians *)
  fpi : F                     (* M_PI *)
}.

(* ------------------------------------------------------------------ *)
(** ** The Qt value types *)

Module Qt.
Section Values.
  Context (F : Type) {SF : Scalar F}.
  Local Open Scope scalar_scope.

Record QPointF : Type := mkQPointF { xp : F; yp : F }.

(** Row-major 3x3 matrix; Qt multiplies points on the left, so
    [(m31, m32)] is the translation and [(m13, m23, m33)] the
    projective column. *)
Record QTransform : Type := mkQTransform {
  m11 : F; m12 : F; m13 : F;
  m21 : F; m22 : F; m23 : F;
  m31 : F; m32 : F; m33 : F
}.

(** [QTransform(m11, m12, m21, m22, dx, dy)] *)
Definition QTransform6 (a11 a12 a21 a22 dx dy : F) : QTransform :=
  mkQTransform a11 a12 (of_Z 0) a21 a22 (of_Z 0) dx dy (of_Z 1).

Definition fromScale (sx sy : F) : QTransform :=
  QTransform6 sx (of_Z 0) (of_Z 0) sy (of_Z 0) (of_Z 0).

Definition fromTranslate (dx dy : F) : QTransform :=
  QTransform6 (of_Z 1) (of_Z 0) (of_Z 0) (of_Z 1) dx dy.

(** [QPointF::operator==] *)
Definition QPointF_eqb (p q : QPointF) : bool :=
  fuzzy_eqb (xp p) (xp q) && fuzzy_eqb (yp p) (yp q).

(** [QTransform::operator==]: all nine entries compared with [==]. *)
Definition QTransform_eqb (s t : QTransform) : bool :=
  feqb (m11 s) (m11 t) && feqb (m12 s) (m12 t) && feqb (m13 s) (m13 t) &&
  feqb (m21 s) (m21 t) && feqb (m22 s) (m22 t) && feqb (m23 s) (m23 t) &&
  feqb (m31 s) (m31 t) && feqb (m32 s) (m32 t) && feqb (m33 s) (m33 t).

(** [QTransform::operator*], the 3x3 matrix product. *)
Definition QTransform_mul (s t : QTransform) : QTransform :=
  mkQTransform
    (m11 s * m11 t + m12 s * m21 t + m13 s * m31 t)
    (m11 s * m12 t + m12 s * m22 t + m13 s * m32 t)
    (m11 s * m13 t + m12 s * m23 t + m13 s * m33 t)
    (m21 s * m11 t + m22 s * m21 t + m23 s * m31 t)
    (m21 s * m12 t + m22 s * m22 t + m23 s * m32 t)
    (m21 s * m13 t + m22 s * m23 t + m23 s * m33 t)
    (m31 s * m11 t + m32 s * m21 t + m33 s * m31 t)
    (m31 s * m12 t + m32 s * m22 t + m33 s * m32 t)
    (m31 s * m13 t + m32 s * m23 t + m33 s * m33 t).

(** [QTransform::map(QPointF)] for a transform without projective part:
    [x' = m11*x + m21*y + dx], [y' = m12*x + m22*y + dy].  All transforms
    this program builds are of that kind (see [affine] below). *)
Definition QTransform_map (t : QTransform) (p : QPointF) : QPointF :=
  mkQPointF (m11 t * xp p + m21 t * yp p + m31 t)
            (m12 t * xp p + m22 t * yp p + m32 t).



(** [QTransform::scale], [translate] and [rotate] change the coordinate
    system first, i.e. multiply from the left.  Qt has shortcuts for
    the simpler matrix types; these are the general formulas. *)
Definition QTransform_scale (sx sy : F) (t : QTransform) : QTransform :=
  mkQTransform (m11 t * sx) (m12 t * sx) (m13 t * sx)
               (m21 t * sy) (m22 t * sy) (m23 t * sy)
               (m31 t) (m32 t) (m33 t).

Definition QTransform_translate (dx dy : F) (t : QTransform) : QTransform :=
  mkQTransform (m11 t) (m12 t) (m13 t)
               (m21 t) (m22 t) (m23 t)
               (m31 t + (dx * m11 t + dy * m21 t))
               (m32 t + (dy * m22 t + dx * m12 t))
               (m33 t + (dx * m13 t + dy * m23 t)).

(** qDegreesToRadians *)
Definition qDegreesToRadians {EF : Elementary F} (a : F) : F :=
  a * (fpi / of_Z 180).

Definition QTransform_rotate {EF : Elementary F} (a : F) (t : QTransform)
  : QTransform :=
  let sina := fsin (qDegreesToRadians a) in
  let cosa := fcos (qDegreesToRadians a) in
  mkQTransform (cosa * m11 t + sina * m21 t)
               (cosa * m12 t + sina * m22 t)
               (cosa * m13 t + sina * m23 t)
               (- sina * m11 t + cosa * m21 t)
               (- sina * m12 t + cosa * m22 t)
               (- sina * m13 t + cosa * m23 t)
               (m31 t) (m32 t) (m33 t).

End Values.
End Qt.
Import Qt.

(* ------------------------------------------------------------------ *)
(** ** Aerial images *)

Module Aerial.

(** [class Availability(enum.IntEnum)], values 0..3 in declaration order. *)
Inductive Availability : Type := missing | findPreview | preview | image.

Definition Availability_value (a : Availability) : Z :=
  match a with missing => 0 | findPreview => 1 | preview => 2 | image => 3 end.

Inductive Usage : Type := discarded | unset | selected.

Inductive TransformState : Type := original | changed | locked.

Definition TransformState_eqb (a b : TransformState) : bool :=
  match a, b with
  | original, original | changed, changed | locked, locked => true
  | _, _ => false
  end.

(** What [gdal.Open] returns, as far as this code reads it. *)
Record Dataset : Type := mkDataset {
  RasterXSize : Z; RasterYSize : Z; RasterCount : Z
}.

(** The [assert] statements of [__georeference]. *)
Inductive AssertSite : Type :=
  | assert_bottom_row       (* abs(transform[2, :] - (0, 0, 1)).max() < 1.e-7 *)
  | assert_last_column      (* abs(transform[:, 2] - (0, 0, 1)).max() < 1.e-7 *)
  | assert_previewRect_None (* previewRect is None *).

(** Exceptions that leave [__georeference]. *)
Inductive exn : Type :=
  | AssertionError (site : AssertSite)
  | TypeError          (* imageRootDir / None *)
  | RuntimeError       (* gdal.Open with gdal.UseExceptions() in force *)
  | ZeroDivisionError
  | ValueError         (* zip(..., strict=True) on different lengths *).

(** How a statement ends: normally with a value, or with an exception. *)
Inductive result (A : Type) : Type :=
  | Ok (a : A)
  | Raise (e : exn).
Arguments Raise {A} e.

Inductive StandardButton : Type := Yes | No.

(** [__pixMapWidth: Final = 3000] *)
Definition pixMapWidth : Z := 3000.

Section Item.
  Context (F : Type) {SF : Scalar F}.
  Local Open Scope string_scope.
  Local Open Scope list_scope.
  Local Open Scope scalar_scope.

(** The row of table [aerials] that belongs to the image.  The JSON
    texts are kept as the lists they encode. *)
Record Row : Type := mkRow {
  usage : Usage;
  scenePos : list F;
  trafo : list F;
  trafoLocked : bool;
  path : option string;
  previewRect : option (list Z)
}.

(** The 2x3 array [gdalTrafo]. *)
Record GdalTrafo : Type := mkGdalTrafo {
  g00 : F; g01 : F; g02 : F;
  g10 : F; g11 : F; g12 : F
}.

(** Child items that show the homologous points. *)
Inductive Overlay : Type :=
  | EllipseItem (at_ : QPointF F)
  | LineItem (from_ to_ : QPointF F).

Inductive Signal : Type := aerialFootPrintChanged.

Inductive LogRecord : Type :=
  | log_exception (msg : string) (exc_info : string)
  | log_info_georeferenced (path_ : string) (npts : nat) (shift scale : F).

(** The state of an [AerialImage], of its [AerialPoint], of its database
    row and of the module's logger.  Z values, pens and cursors are left
    out. *)
Record AerialImage : Type := mkAerialImage {
  pos : QPointF F;
  transform : QTransform F;
  offset : QPointF F;  (* of the pixmap *)
  availability : Availability;
  transformState : TransformState;
  movable : bool;  (* QGraphicsItem.ItemIsMovable *)
  hasFocus : bool;
  opacity : F;
  saved_opacity : F;  (* self.__opacity *)
  lock_visible : bool;  (* self.__lock.isVisible() *)
  point_pos : QPointF F;  (* self.__point.pos() *)
  point_transformState : TransformState;
  row : Row;
  in_scene : bool;  (* self.scene() is not None *)
  emitted : list Signal;
  childItems : list Overlay;
  logger : list LogRecord
}.

Definition set_pos v (s : AerialImage) : AerialImage :=
  mkAerialImage v (transform s) (offset s) (availability s)
    (transformState s) (movable s) (hasFocus s) (opacity s)
    (saved_opacity s) (lock_visible s) (point_pos s)
    (point_transformState s) (row s) (in_scene s) (emitted s)
    (childItems s) (logger s).
Definition set_transform v (s : AerialImage) : AerialImage :=
  mkAerialImage (pos s) v (offset s) (availability s) (transformState s)
    (movable s) (hasFocus s) (opacity s) (saved_opacity s)
    (lock_visible s) (point_pos s) (point_transformState s) (row s)
    (in_scene s) (emitted s) (childItems s) (logger s).
Definition set_transformState v (s : AerialImage) : AerialImage :=
  mkAerialImage (pos s) (transform s) (offset s) (availability s) v
    (movable s) (hasFocus s) (opacity s) (saved_opacity s)
    (lock_visible s) (point_pos s) (point_transformState s) (row s)
    (in_scene s) (emitted s) (childItems s) (logger s).
Definition set_movable v (s : AerialImage) : AerialImage :=
  mkAerialImage (pos s) (transform s) (offset s) (availability s)
    (transformState s) v (hasFocus s) (opacity s) (saved_opacity s)
    (lock_visible s) (point_pos s) (point_transformState s) (row s)
    (in_scene s) (emitted s) (childItems s) (logger s).
Definition set_opacity v (s : AerialImage) : AerialImage :=
  mkAerialImage (pos s) (transform s) (offset s) (availability s)
    (transformState s) (movable s) (hasFocus s) v (saved_opacity s)
    (lock_visible s) (point_pos s) (point_transformState s) (row s)
    (in_scene s) (emitted s) (childItems s) (logger s).
Definition set_saved_opacity v (s : AerialImage) : AerialImage :=
  mkAerialImage (pos s) (transform s) (offset s) (availability s)
    (transformState s) (movable s) (hasFocus s) (opacity s) v
    (lock_visible s) (point_pos s) (point_transformState s) (row s)
    (in_scene s) (emitted s) (childItems s) (logger s).
Definition set_lock_visible v (s : AerialImage) : AerialImage :=
  mkAerialImage (pos s) (transform s) (offset s) (availability s)
    (transformState s) (movable s) (hasFocus s) (opacity s)
    (saved_opacity s) v (point_pos s) (point_transformState s) (row s)
    (in_scene s) (emitted s) (childItems s) (logger s).
Definition set_point_pos v (s : AerialImage) : AerialImage :=
  mkAerialImage (pos s) (transform s) (offset s) (availability s)
    (transformState s) (movable s) (hasFocus s) (opacity s)
    (saved_opacity s) (lock_visible s) v (point_transformState s) (row s)
    (in_scene s) (emitted s) (childItems s) (logger s).
Definition set_point_transformState v (s : AerialImage) : AerialImage :=
  mkAerialImage (pos s) (transform s) (offset s) (availability s)
    (transformState s) (movable s) (hasFocus s) (opacity s)
    (saved_opacity s) (lock_visible s) (point_pos s) v (row s)
    (in_scene s) (emitted s) (childItems s) (logger s).
Definition set_row v (s : AerialImage) : AerialImage :=
  mkAerialImage (pos s) (transform s) (offset s) (availability s)
    (transformState s) (movable s) (hasFocus s) (opacity s)
    (saved_opacity s) (lock_visible s) (point_pos s)
    (point_transformState s) v (in_scene s) (emitted s) (childItems s)
    (logger s).
Definition set_emitted v (s : AerialImage) : AerialImage :=
  mkAerialImage (pos s) (transform s) (offset s) (availability s)
    (transformState s) (movable s) (hasFocus s) (opacity s)
    (saved_opacity s) (lock_visible s) (point_pos s)
    (point_transformState s) (row s) (in_scene s) v (childItems s)
    (logger s).
Definition set_childItems v (s : AerialImage) : AerialImage :=
  mkAerialImage (pos s) (transform s) (offset s) (availability s)
    (transformState s) (movable s) (hasFocus s) (opacity s)
    (saved_opacity s) (lock_visible s) (point_pos s)
    (point_transformState s) (row s) (in_scene s) (emitted s) v (logger s).
Definition set_logger v (s : AerialImage) : AerialImage :=
  mkAerialImage (pos s) (transform s) (offset s) (availability s)
    (transformState s) (movable s) (hasFocus s) (opacity s)
    (saved_opacity s) (lock_visible s) (point_pos s)
    (point_transformState s) (row s) (in_scene s) (emitted s)
    (childItems s) v.

Definition row_set_scenePos v (r : Row) : Row :=
  mkRow (usage r) v (trafo r) (trafoLocked r) (path r) (previewRect r).
Definition row_set_trafo v (r : Row) : Row :=
  mkRow (usage r) (scenePos r) v (trafoLocked r) (path r) (previewRect r).
Definition row_set_trafoLocked v (r : Row) : Row :=
  mkRow (usage r) (scenePos r) (trafo r) v (path r) (previewRect r).

(** *** Statements that may raise *)

(** A statement maps the state to a result and the state it leaves
    behind; what was changed before an exception stays changed. *)
Definition M (A : Type) : Type := AerialImage -> result A * AerialImage.

Definition ret {A : Type} (a : A) : M A := fun s => (Ok a, s).

Definition bind {A B : Type} (c : M A) (k : A -> M B) : M B :=
  fun s =>
    match c s with
    | (Ok a, s') => k a s'
    | (Raise e, s') => (Raise e, s')
    end.

Definition raise {A : Type} (e : exn) : M A := fun s => (Raise e, s).

Definition gets {A : Type} (f : AerialImage -> A) : M A :=
  fun s => (Ok (f s), s).

Definition modify (f : AerialImage -> AerialImage) : M unit :=
  fun s => (Ok tt, f s).

Definition assert_ (b : bool) (site : AssertSite) : M unit :=
  if b then ret tt else raise (AssertionError site).

Notation "x <- c ;; k" := (bind c (fun x => k))
  (at level 61, c at next level, right associativity).
Notation "c ;; k" := (bind c (fun _ => k))
  (at level 61, right associativity).

(** *** Setters and change notifications *)

(** [__setMovability] *)
Definition setMovability (s : AerialImage) : AerialImage :=
  set_movable
    ((2 <=? Availability_value (availability s))%Z
     && negb (TransformState_eqb (transformState s) locked)) s.

(** [__setTransformState] *)
Definition setTransformState (ts : TransformState) (s : AerialImage)
  : AerialImage :=
  let s := set_transformState ts s in
  let isLocked := TransformState_eqb ts locked in
  let s := set_row (row_set_trafoLocked isLocked (row s)) s in
  let s := set_lock_visible isLocked s in
  let s := setMovability s in
  set_point_transformState ts s.

Definition emit (sig : Signal) (s : AerialImage) : AerialImage :=
  if in_scene s then set_emitted (emitted s ++ [sig]) s else s.

(** [self.__point.setPos(v)]: Qt returns early when the position
    compares equal. *)
Definition point_setPos (v : QPointF F) (s : AerialImage) : AerialImage :=
  if QPointF_eqb (point_pos s) v then s else set_point_pos v s.

(** [itemChange(QGraphicsItem.ItemPositionHasChanged, v)] *)
Definition itemChange_ItemPositionHasChanged (v : QPointF F)
  (s : AerialImage) : AerialImage :=
  let s := point_setPos v s in
  let s := set_row (row_set_scenePos [xp v; yp v] (row s)) s in
  let s := emit aerialFootPrintChanged s in
  setTransformState changed s.

(** [itemChange(QGraphicsItem.ItemTransformHasChanged, v)] *)
Definition itemChange_ItemTransformHasChanged (v : QTransform F)
  (s : AerialImage) : AerialImage :=
  let s := set_row (row_set_trafo
             [m11 v; m12 v; m13 v; m21 v; m22 v; m23 v; m31 v; m32 v; m33 v]
             (row s)) s in
  let s := emit aerialFootPrintChanged s in
  setTransformState changed s.

(** [QGraphicsItem.setPos] of an item with ItemSendsGeometryChanges:
    nothing happens when the new position compares equal to the current
    one; otherwise the position is stored and the item is notified. *)
Definition setPos (p : QPointF F) (s : AerialImage) : AerialImage :=
  if QPointF_eqb (pos s) p then s
  else itemChange_ItemPositionHasChanged p (set_pos p s).

(** [QGraphicsItem.setTransform], likewise. *)
Definition setTransform (t : QTransform F) (s : AerialImage) : AerialImage :=
  if QTransform_eqb (transform s) t then s
  else itemChange_ItemTransformHasChanged t (set_transform t s).

(** [QGraphicsItem.moveBy] *)
Definition moveBy (dx dy : F) (s : AerialImage) : AerialImage :=
  setPos (mkQPointF (xp (pos s) + dx) (yp (pos s) + dy)) s.

(** [mapToScene] of a top-level item: [transform().map(pt) + pos()]. *)
Definition mapToScene (s : AerialImage) (p : QPointF F) : QPointF F :=
  let q := QTransform_map (transform s) p in
  mkQPointF (xp q + xp (pos s)) (yp q + yp (pos s)).

(** *** Automatic georeferencing *)

(** [gdal.Open] on the image's path below [imageRootDir]; [None] when
    the raster cannot be opened. *)
Variable gdal_Open : string -> option Dataset.

(** The matcher [georef(ds, gdalTrafo)] of module [georef]: either it
    raises, or it returns the refined transformation with the homologous
    points in the aerial and in the orthophoto. *)
Variable georef : Dataset -> GdalTrafo ->
  string + (GdalTrafo * list (QPointF F) * list (QPointF F)).

(** [abs(v - (0, 0, 1)).max() < 1.e-7] for a row or column [v]. *)
Definition is_001 (a b c : F) : bool :=
  fmax (fmax (fabs (a - of_Z 0)) (fabs (b - of_Z 0))) (fabs (c - of_Z 1))
  <? of_Z 1 / of_Z 10000000.

(** Both assertions on the transform: bottom row and last column. *)
Definition homogeneous (t : QTransform F) : bool :=
  is_001 (m31 t) (m32 t) (m33 t) && is_001 (m13 t) (m23 t) (m33 t).

(** [gdalTrafo[:, 1:] *= k] *)
Definition scale_linear (k : F) (g : GdalTrafo) : GdalTrafo :=
  mkGdalTrafo (g00 g) (g01 g * k) (g02 g * k)
              (g10 g) (g11 g * k) (g12 g * k).

(** [gdalTrafo[1, :] *= -1.] *)
Definition negate_row1 (g : GdalTrafo) : GdalTrafo :=
  mkGdalTrafo (g00 g) (g01 g) (g02 g)
              (g10 g * of_Z (-1)) (g11 g * of_Z (-1)) (g12 g * of_Z (-1)).

(** [pts *= k; pts += off] *)
Definition to_display (k : F) (off : QPointF F) (pts : list (QPointF F))
  : list (QPointF F) :=
  map (fun p => mkQPointF (xp p * k + xp off) (yp p * k + yp off)) pts.

(** The loop over [zip(aerialPts, orthoPts, strict=True)]: one ellipse
    and one line per pair, all children of the image. *)
Fixpoint add_items (aerialPts orthoPts : list (QPointF F)) : M nat :=
  match aerialPts, orthoPts with
  | [], [] => ret 0%nat
  | a :: aerialPts', o :: orthoPts' =>
      modify (fun s =>
        set_childItems (childItems s ++ [EllipseItem a; LineItem a o]) s) ;;
      n <- add_items aerialPts' orthoPts' ;;
      ret (2 + n)%nat
  | _, _ => raise ValueError
  end.

(** The last [n] children are taken out of the scene again. *)
Definition remove_items (n : nat) (s : AerialImage) : AerialImage :=
  set_childItems
    (firstn (List.length (childItems s) - n)%nat (childItems s)) s.

(** [gdalTrafo[:, 0] + gdalTrafo[:, 1:] @ -off] *)
Definition newPos_of (g : GdalTrafo) (off : QPointF F) : QPointF F :=
  mkQPointF (g00 g + (g01 g * - xp off + g02 g * - yp off))
            (g10 g + (g11 g * - xp off + g12 g * - yp off)).

(** [QTransform(newTr[0, 0], newTr[0, 1], newTr[1, 0], newTr[1, 1], 0., 0.)]
    with [newTr = gdalTrafo[:, 1:].T] *)
Definition newTr_of (g : GdalTrafo) : QTransform F :=
  QTransform6 (g01 g) (g11 g) (g02 g) (g12 g) (of_Z 0) (of_Z 0).

(** Determinant of a 2x2 array [[a, b], [c, d]]. *)
Definition det2 (a b c d : F) : F := a * d - b * c.

(** [np.sum(((pos.x(), pos.y()) - newPos) ** 2) ** .5] *)
Definition shift_of (old new : QPointF F) : F :=
  let dx := xp old - xp new in
  let dy := yp old - yp new in
  fsqrt (dx * dx + dy * dy).

(** [(det(gdalTrafo[:, 1:].T) / det(transform[:2, :2])) ** .5] *)
Definition scale_of (g : GdalTrafo) (tr : QTransform F) : F :=
  fsqrt (det2 (g01 g) (g11 g) (g02 g) (g12 g)
         / det2 (m11 tr) (m12 tr) (m21 tr) (m22 tr)).

Definition log_ (r : LogRecord) : M unit :=
  modify (fun s => set_logger (logger s ++ [r]) s).

(** What the statements up to the [try] have bound. *)
Record Prepared : Type := mkPrepared {
  p_pos : QPointF F;          (* pos *)
  p_tr : QTransform F;        (* tr, transform *)
  p_path : string;            (* path *)
  p_ds : Dataset;             (* ds *)
  p_gdalTrafo : GdalTrafo     (* gdalTrafo, scene -> WCS, native resolution *)
}.

(** [__georeference] up to the call of the matcher. *)
Definition before_matcher : M Prepared :=
  pos0 <- gets pos ;;
  tr <- gets transform ;;
  assert_ (is_001 (m31 tr) (m32 tr) (m33 tr)) assert_bottom_row ;;
  assert_ (is_001 (m13 tr) (m23 tr) (m33 tr)) assert_last_column ;;
  topLeft <- gets (fun s => mapToScene s (offset s)) ;;
  let gdalTrafo :=
    mkGdalTrafo (xp topLeft) (m11 tr) (m21 tr)
                (yp topLeft) (m12 tr) (m22 tr) in
  r <- gets row ;;
  assert_ (match previewRect r with None => true | Some _ => false end)
    assert_previewRect_None ;;
  path_ <- match path r with Some p => ret p | None => raise TypeError end ;;
  ds <- match gdal_Open path_ with
        | Some ds => ret ds
        | None => raise RuntimeError
        end ;;
  native2display <-
    (if (RasterXSize ds =? 0)%Z then raise ZeroDivisionError
     else ret (of_Z pixMapWidth / of_Z (RasterXSize ds))) ;;
  let gdalTrafo := scale_linear native2display gdalTrafo in
  let gdalTrafo := negate_row1 gdalTrafo in
  ret (mkPrepared pos0 tr path_ ds gdalTrafo).

(** The refined transformation in scene coordinates and display
    resolution: [gdalTrafo[1, :] *= -1.] and
    [gdalTrafo[:, 1:] *= 1. / scaleNative2display]. *)
Definition to_scene (display2native : F) (g : GdalTrafo) : GdalTrafo :=
  scale_linear display2native (negate_row1 g).

(** [__georeference] after the matcher has returned; [button] is what
    the user answers in the message box.  The item is taken to be shown in
    a view whose device transformation has a positive determinant, so that
    the pen of the lines can be made; pens and brushes are left out. *)
Definition after_matcher (c : Prepared) (button : StandardButton)
  (gdalTrafo : GdalTrafo) (aerialPts orthoPts : list (QPointF F))
  : M unit :=
  let scaleNative2display := of_Z pixMapWidth / of_Z (RasterXSize (p_ds c)) in
  off <- gets offset ;;
  let aerialPts := to_display scaleNative2display off aerialPts in
  let orthoPts := to_display scaleNative2display off orthoPts in
  nitems <- add_items aerialPts orthoPts ;;
  display2native <-
    (if feqb scaleNative2display (of_Z 0) then raise ZeroDivisionError
     else ret (of_Z 1 / scaleNative2display)) ;;
  let gdalTrafo := to_scene display2native gdalTrafo in
  let newPos := newPos_of gdalTrafo off in
  let newTr := newTr_of gdalTrafo in
  modify (setPos newPos) ;;
  modify (setTransform newTr) ;;
  let shift := shift_of (p_pos c) newPos in
  let scale := scale_of gdalTrafo (p_tr c) in
  log_ (log_info_georeferenced (p_path c) (List.length aerialPts)
          shift scale) ;;
  match button with
  | No => modify (setPos (p_pos c)) ;; modify (setTransform (p_tr c))
  | Yes => ret tt
  end ;;
  modify (remove_items nitems).

(** The record that [after_matcher] writes to the log, for the refined
    transformation [g] in scene coordinates. *)
Definition diagnostics (c : Prepared) (g : GdalTrafo)
  (off : QPointF F) (npts : nat) : LogRecord :=
  log_info_georeferenced (p_path c) npts
    (shift_of (p_pos c) (newPos_of g off)) (scale_of g (p_tr c)).

(** [AerialImage.__georeference]: the call of the matcher is the body of
    the [try]; the bare [except] logs and returns. *)
Definition georeference (button : StandardButton) : M unit :=
  c <- before_matcher ;;
  match georef (p_ds c) (p_gdalTrafo c) with
  | inl exc_info =>
      log_ (log_exception "Automatic georeferencing failed." exc_info)
  | inr (gdalTrafo, aerialPts, orthoPts) =>
      after_matcher c button gdalTrafo aerialPts orthoPts
  end.

(** *** Zooming and rotating with the mouse wheel *)

Context {EF : Elementary F}.

Record WheelEvent : Type := mkWheelEvent {
  delta : Z;                  (* event.delta() *)
  shiftModifier : bool;       (* event.modifiers() & Qt.ShiftModifier *)
  altModifier : bool;
  controlModifier : bool;
  event_pos : QPointF F       (* event.pos(), in item coordinates *)
}.

(** Python's [max(a, b)] and [min(a, b)]: the first argument unless the
    second one is larger, resp. smaller. *)
Definition py_max (a b : F) : F := if a <? b then b else a.
Definition py_min (a b : F) : F := if b <? a then b else a.

(** [event.delta() / 8 / 15], divided by 10 with Shift. *)
Definition numSteps_of (ev : WheelEvent) : F :=
  let numSteps := of_Z (delta ev) / of_Z 8 / of_Z 15 in
  if shiftModifier ev then numSteps / of_Z 10 else numSteps.

(** The zoom about the cursor, or with Ctrl the rotation about it. *)
Definition wheel_trafo (ev : WheelEvent) (numSteps : F) : QTransform F :=
  let x := xp (event_pos ev) in
  let y := yp (event_pos ev) in
  if negb (controlModifier ev) then
    let scale := fpow (of_Z 11 / of_Z 10) numSteps in
    QTransform_scale scale scale
      (fromTranslate (x * (of_Z 1 - scale)) (y * (of_Z 1 - scale)))
  else
    let angle := numSteps * of_Z 10 in
    QTransform_translate (- x) (- y)
      (QTransform_rotate angle (fromTranslate x y)).

(** [AerialImage.wheelEvent]; the boolean tells whether the event stays
    accepted ([false] after [event.ignore()]). *)
Definition wheelEvent (ev : WheelEvent) (s : AerialImage)
  : bool * AerialImage :=
  if (Availability_value (availability s) <? 2)%Z || negb (hasFocus s)
  then (false, s)
  else
    let numSteps := numSteps_of ev in
    if altModifier ev then
      let o := py_min (py_max (opacity s - numSteps * (of_Z 1 / of_Z 10))
                              (of_Z 3 / of_Z 10))
                      (of_Z 1) in
      (true, set_opacity o (set_saved_opacity o s))
    else if negb (movable s) then (false, s)
    else
      let trafo := wheel_trafo ev numSteps in
      let combined := QTransform_mul trafo (transform s) in
      let origin := QTransform_map combined (mkQPointF (of_Z 0) (of_Z 0)) in
      let combined :=
        QTransform_mul combined
          (fromTranslate (- xp origin) (- yp origin)) in
      (true, moveBy (xp origin) (yp origin) (setTransform combined s)).
End Item.
End Aerial.

(* ------------------------------------------------------------------ *)
(** ** Two number models *)

(** Idealised arithmetic on the real numbers.  [x ** .5] is the real
    square root (0 on negative numbers, where numpy yields nan), and Qt's
    comparisons are equality. *)
Module RealModel.
  Local Open Scope R_scope.

Definition Rltb (a b : R) : bool := if Rlt_dec a b then true else false.
Definition Reqb (a b : R) : bool := if Req_dec_T a b then true else false.

#[export] Instance Scalar_R : Scalar R := {|
  of_Z := IZR;
  fadd := Rplus; fsub := Rminus; fmul := Rmult; fdiv := Rdiv;
  fneg := Ropp; fabs := Rabs; fmax := Rmax; fsqrt := sqrt;
  fltb := Rltb; feqb := Reqb; fuzzy_eqb := Reqb
|}.

#[export] Instance Elementary_R : Elementary R := {|
  fpow := Rpower; fsin := sin; fcos := cos; fpi := PI
|}.


End RealModel.

(** IEEE 754 binary64, the representation of Python floats and of qreal. *)
Module Binary64.
  Import PrimFloat.
  Local Open Scope float_scope.

(** Conversion of an int below 2^63 in absolute value. *)
Definition float_of_Z (z : Z) : float :=
  match z with
  | Z0 => 0
  | Zpos _ => PrimFloat.of_uint63 (Uint63.of_Z z)
  | Zneg p => - PrimFloat.of_uint63 (Uint63.of_Z (Zpos p))
  end.

Definition is_nan (a : float) : bool := negb (a =? a).

(** numpy's maximum propagates nan. *)
Definition float_max (a b : float) : float :=
  if is_nan a then a else if is_nan b then b
  else if a <? b then b else a.

(** qFuzzyIsNull and qFuzzyCompare of qglobal.h, and their use in
    QPointF::operator== (Qt 5.15). *)
Definition qFuzzyIsNull (d : float) : bool :=
  abs d <=? 1 / 1000000000000.
Definition qFuzzyCompare (p q : float) : bool :=
  let m := if abs p <? abs q then abs p else abs q in
  abs (p - q) * 1000000000000 <=? m.
Definition coord_eqb (p q : float) : bool :=
  if (p =? 0) || (q =? 0) then qFuzzyIsNull (p - q) else qFuzzyCompare p q.

#[export] Instance Scalar_float : Scalar float := {|
  of_Z := float_of_Z;
  fadd := PrimFloat.add; fsub := PrimFloat.sub; fmul := PrimFloat.mul;
  fdiv := PrimFloat.div; fneg := PrimFloat.opp; fabs := PrimFloat.abs;
  fmax := float_max; fsqrt := PrimFloat.sqrt;
  fltb := PrimFloat.ltb; feqb := PrimFloat.eqb; fuzzy_eqb := coord_eqb
|}.
End Binary64.

(* ------------------------------------------------------------------ *)
(** ** Delivery of decoded pixmaps

    [__requestPixMap] runs on the GUI thread, the decoding and
    [__pixMapReady] on threads of the pool, [paint] on the GUI thread
    again.  The blocks guarded by a lock and the transitions of a future
    are the atomic steps; a schedule is a list of them. *)
Module PixMap.

(** The states of a [concurrent.futures.Future]; [FINISHED] stands for
    a decoding that has returned its pixmap. *)
Inductive FutureState : Type :=
  | PENDING | RUNNING | CANCELLED | CANCELLED_AND_NOTIFIED | FINISHED.

(** Futures are told apart by the order of their submission. *)
Definition Future : Type := nat.

(** [(path, previewRect, rotationCcw, self.__currentContrast)] *)
Record Params : Type := mkParams {
  path : string;
  previewRect : Z * Z * Z * Z;
  rotationCcw : Z;
  contrast : nat
}.

Definition Params_eqb (p q : Params) : bool :=
  String.eqb (path p) (path q)
  && (let '(a, b, c, d) := previewRect p in
      let '(a', b', c', d') := previewRect q in
      (a =? a')%Z && (b =? b')%Z && (c =? c')%Z && (d =? d')%Z)
  && (rotationCcw p =? rotationCcw q)%Z
  && Nat.eqb (contrast p) (contrast q).

(** Where the GUI thread is. *)
Inductive Gui : Type :=
  | Idle
  | Submitted (f : Future) (p : Params)
      (* in [__requestPixMap], before [with self.__lastRequestedFutureLock] *)
  | Deadlocked
      (* waiting for [__lastRequestedFutureLock] while holding it *).

Record State : Type := mkState {
  gui : Gui;
  displayable : bool;     (* self.__availability in (preview, image) *)
  requestedPixMapParams : option Params;
  fstate : Future -> FutureState;
  submitted : nat;        (* number of futures submitted so far *)
  lastRequestedFuture : option Future;
  checked : list Future;  (* callbacks between their two locked blocks *)
  futurePixmap : option Future;
  updates : nat;          (* calls of self.update() *)
  pixmaps : list Future   (* pixmaps set by paint, oldest first *)
}.

Definition set_fstate (f : Future) (v : FutureState)
  (fs : Future -> FutureState) : Future -> FutureState :=
  fun g => if Nat.eqb g f then v else fs g.

Inductive Event : Type :=
  | RequestBegin (p : Params)  (* [__requestPixMap] up to add_done_callback *)
  | RequestEnd                 (* the rest of [__requestPixMap] *)
  | WorkerStart (f : Future)   (* a worker takes the work item *)
  | WorkerDone (f : Future)    (* [_getPixMap] returned; [__pixMapReady]
                                  up to the end of its first block *)
  | WorkerStore (f : Future)   (* the rest of [__pixMapReady] *)
  | Paint.

(** The first block of [__pixMapReady]: a future that is not the last
    requested one is dropped. *)
Definition pixMapReady_check (f : Future) (s : State) : State :=
  match lastRequestedFuture s with
  | Some l =>
      if Nat.eqb l f then
        mkState (gui s) (displayable s) (requestedPixMapParams s) (fstate s)
          (submitted s) (lastRequestedFuture s) (f :: checked s)
          (futurePixmap s) (updates s) (pixmaps s)
      else s
  | None => s
  end.

(** The second block of [__pixMapReady], and [self.update()]. *)
Definition pixMapReady_store (f : Future) (s : State) : State :=
  mkState (gui s) (displayable s) (requestedPixMapParams s) (fstate s)
    (submitted s) (lastRequestedFuture s)
    (filter (fun g => negb (Nat.eqb g f)) (checked s))
    (Some f) (S (updates s)) (pixmaps s).

(** One step; [None] when the event cannot happen in this state. *)
Definition step (s : State) (e : Event) : option State :=
  match e, gui s with
  | RequestBegin p, Idle =>
      let same :=
        match requestedPixMapParams s with
        | Some q => Params_eqb q p
        | None => false
        end in
      if displayable s && negb same then
        let f := submitted s in
        Some (mkState (Submitted f p) (displayable s)
                (requestedPixMapParams s) (set_fstate f PENDING (fstate s))
                (S f) (lastRequestedFuture s) (checked s) (futurePixmap s)
                (updates s) (pixmaps s))
      else
        Some (mkState Idle (displayable s) (Some p) (fstate s)
                (submitted s) (lastRequestedFuture s) (checked s)
                (futurePixmap s) (updates s) (pixmaps s))
  | RequestEnd, Submitted f p =>
      match lastRequestedFuture s with
      | Some l =>
          match fstate s l with
          | PENDING =>
              (* cancel() succeeds and calls __pixMapReady at once, on
                 this thread, which holds the lock already *)
              Some (mkState Deadlocked (displayable s)
                      (requestedPixMapParams s)
                      (set_fstate l CANCELLED (fstate s)) (submitted s)
                      (lastRequestedFuture s) (checked s) (futurePixmap s)
                      (updates s) (pixmaps s))
          | _ =>
              Some (mkState Idle (displayable s) (Some p) (fstate s)
                      (submitted s) (Some f) (checked s) (futurePixmap s)
                      (updates s) (pixmaps s))
          end
      | None =>
          Some (mkState Idle (displayable s) (Some p) (fstate s)
                  (submitted s) (Some f) (checked s) (futurePixmap s)
                  (updates s) (pixmaps s))
      end
  | WorkerStart f, _ =>
      if Nat.ltb f (submitted s) then
        match fstate s f with
        | PENDING =>
            Some (mkState (gui s) (displayable s) (requestedPixMapParams s)
                    (set_fstate f RUNNING (fstate s)) (submitted s)
                    (lastRequestedFuture s) (checked s) (futurePixmap s)
                    (updates s) (pixmaps s))
        | CANCELLED =>
            Some (mkState (gui s) (displayable s) (requestedPixMapParams s)
                    (set_fstate f CANCELLED_AND_NOTIFIED (fstate s))
                    (submitted s) (lastRequestedFuture s) (checked s)
                    (futurePixmap s) (updates s) (pixmaps s))
        | _ => None
        end
      else None
  | WorkerDone f, _ =>
      if Nat.ltb f (submitted s) then
        match fstate s f with
        | RUNNING =>
            let s' :=
              mkState (gui s) (displayable s) (requestedPixMapParams s)
                (set_fstate f FINISHED (fstate s)) (submitted s)
                (lastRequestedFuture s) (checked s) (futurePixmap s)
                (updates s) (pixmaps s) in
            match gui s with
            | Deadlocked => Some s'   (* the callback waits for the lock *)
            | _ => Some (pixMapReady_check f s')
            end
        | _ => None
        end
      else None
  | WorkerStore f, _ =>
      if existsb (Nat.eqb f) (checked s)
      then Some (pixMapReady_store f s)
      else None
  | Paint, Idle =>
      match futurePixmap s with
      | Some f =>
          Some (mkState Idle (displayable s) (requestedPixMapParams s)
                  (fstate s) (submitted s) (lastRequestedFuture s)
                  (checked s) None (updates s) (pixmaps s ++ [f]))
      | None => Some s
      end
  | _, _ => None
  end.

Fixpoint run (s : State) (es : list Event) : option State :=
  match es with
  | [] => Some s
  | e :: es' =>
      match step s e with
      | Some s' => run s' es'
      | None => None
      end
  end.

(** A visible image for which nothing has been requested yet. *)
Definition init : State :=
  mkState Idle true None (fun _ => PENDING) 0 None [] None 0 [].

(** *** Schedules *)

(** The two requests, the second one issued before a worker has taken
    the first. *)
Definition second_request_finds_first_pending (p1 p2 : Params)
  : list Event :=
  [RequestBegin p1; RequestEnd; RequestBegin p2; RequestEnd].

(** Two requests with the first decoding under way when the second is
    issued. *)
Definition second_request_finds_first_running (p1 p2 : Params)
  : list Event :=
  [RequestBegin p1; RequestEnd; WorkerStart 0; RequestBegin p2; RequestEnd].

(** The later future is registered and not done, no callback is between
    its blocks and nothing waits to be painted. *)
Definition both_in_flight (later : Future) (s : State) : Prop :=
  gui s = Idle /\ lastRequestedFuture s = Some later /\
  (fstate s later = PENDING \/ fstate s later = RUNNING) /\
  checked s = [] /\ futurePixmap s = None /\ pixmaps s = [].

(** The later future is done; its callback is between its blocks, or its
    pixmap waits to be painted, or it has been painted; no other has. *)
Definition delivered (later : Future) (s : State) : Prop :=
  gui s = Idle /\ lastRequestedFuture s = Some later /\
  fstate s later = FINISHED /\
  ((checked s = [later] /\ futurePixmap s = None /\ pixmaps s = []) \/
   (checked s = [] /\ futurePixmap s = Some later /\ pixmaps s = []) \/
   (checked s = [] /\ futurePixmap s = None /\ pixmaps s = [later])).

(** Events of the workers and of painting. *)
Definition no_request (e : Event) : Prop :=
  match e with RequestBegin _ | RequestEnd => False | _ => True end.
End PixMap.

(* ------------------------------------------------------------------ *)
(** ** Sample data *)

Module Samples.
  Import Aerial.

Module B64.
  Import PrimFloat Binary64.
  Local Open Scope float_scope.

Definition film_row : Row float :=
  mkRow unset [10; 20] [2; 0; 0; 0; 2; 0; 0; 0; 1] false
    (Some "4711/0815.ecw"%string) None.

(** A full image, 3000 x 2000 in display resolution. *)
Definition film_item : AerialImage float :=
  mkAerialImage (mkQPointF 10 20) (fromScale 2 2)
    (mkQPointF (-1500) (-1000)) image original true true 1 1 false
    (mkQPointF 10 20) original film_row true [] [] [].

(** The same image shown through a preview crop. *)
Definition preview_item : AerialImage float :=
  mkAerialImage (mkQPointF 10 20) (fromScale 2 2)
    (mkQPointF (-1500) (-1000)) preview original true true 1 1 false
    (mkQPointF 10 20) original
    (mkRow unset [10; 20] [2; 0; 0; 0; 2; 0; 0; 0; 1] false
       (Some "4711/0815.jpg"%string) (Some [0; 0; 800; 600; 0]%Z))
    true [] [] [].

Definition open_scan (path_ : string) : option Dataset :=
  Some (mkDataset 6000 4000 1).

Definition Matches : Type :=
  (GdalTrafo float * list (QPointF float) * list (QPointF float))%type.

(** A matcher that finds nothing. *)
Definition no_matches (ds : Dataset) (g : GdalTrafo float)
  : string + Matches :=
  inl "no matches"%string.

(** A matcher that moves the corner and triples the scale. *)
Definition tripled (ds : Dataset) (g : GdalTrafo float)
  : string + Matches :=
  inr (mkGdalTrafo (g00 g + 3) (g01 g * 3) (g02 g * 3)
                   (g10 g + 4) (g11 g * 3) (g12 g * 3),
       [mkQPointF 100 100], [mkQPointF 102 99]).
End B64.

Module Real.
  Import RealModel.
  Local Open Scope R_scope.

Definition film_item : AerialImage R :=
  mkAerialImage (mkQPointF 10 20) (fromScale 2 2)
    (mkQPointF 0 0) image original true true 1 1 false
    (mkQPointF 10 20) original
    (mkRow unset [10; 20] [2; 0; 0; 0; 2; 0; 0; 0; 1] false
       (Some "4711/0815.ecw"%string) None)
    true [] [] [].

Definition open_scan (path_ : string) : option Dataset :=
  Some (mkDataset 3000 2000 1).

(** A matcher that moves the corner by (3, 4) and doubles the scale. *)
Definition doubled (ds : Dataset) (g : GdalTrafo R)
  : string + (GdalTrafo R * list (QPointF R) * list (QPointF R)) :=
  inr (mkGdalTrafo (g00 g + 3) (g01 g * 2) (g02 g * 2)
                   (g10 g + 4) (g11 g * 2) (g12 g * 2),
       [], []).

(** One notch of the wheel, 10 pixels right of the centre. *)
Definition notch : WheelEvent R :=
  mkWheelEvent 120 false false false (mkQPointF 10 0).
End Real.

Definition histogram_request : PixMap.Params :=
  PixMap.mkParams "4711/0815.ecw" (0, 0, 0, 0)%Z 0 0.
Definition clahe_request : PixMap.Params :=
  PixMap.mkParams "4711/0815.ecw" (0, 0, 0, 0)%Z 0 1.
End Samples.

(* ------------------------------------------------------------------ *)
(** ** The rest of the life of an aerial image

    The placement the item starts from, the actions of its context menu,
    the events of the mouse, its creation from the database, and the
    z value. *)
Module AerialUI.
Import Aerial.

Definition Availability_eqb (a b : Availability) : bool :=
  (Availability_value a =? Availability_value b)%Z.

Definition Usage_eqb (a b : Usage) : bool :=
  match a, b with
  | discarded, discarded | unset, unset | selected, selected => true
  | _, _ => false
  end.

(** What [contextMenuEvent] adds to its menu. *)
Inductive MenuEntry : Type :=
  | action_Find_preview
  | menu_section_Usage
  | action_Unset
  | action_Select
  | action_Discard
  | menu_separator
  | action_Unlock_transform
  | action_Auto_georeference
  | action_Lock_transform
  | action_Reset_transform.

Definition MenuEntry_eqb (a b : MenuEntry) : bool :=
  match a, b with
  | action_Find_preview, action_Find_preview
  | menu_section_Usage, menu_section_Usage
  | action_Unset, action_Unset
  | action_Select, action_Select
  | action_Discard, action_Discard
  | menu_separator, menu_separator
  | action_Unlock_transform, action_Unlock_transform
  | action_Auto_georeference, action_Auto_georeference
  | action_Lock_transform, action_Lock_transform
  | action_Reset_transform, action_Reset_transform => true
  | _, _ => false
  end.

(** The path that goes out with [aerialAvailabilityChanged]. *)
Inductive AbsPath : Type :=
  | no_path                              (* '' *)
  | below_previewRootDir (p : string)    (* previewRootDir / path *)
  | below_imageRootDir (p : string)      (* imageRootDir / path *).

(** [scene.aerialAvailabilityChanged.emit(id, int(availability), absPath)] *)
Record AvailabilityChanged : Type := mkAvailabilityChanged {
  sig_availability : Z;
  sig_absPath : AbsPath
}.

(** [dialog.selection()] of the preview window, the path relative to
    [previewRootDir]. *)
Record Selection : Type := mkSelection {
  sel_path : string;
  sel_left : Z; sel_top : Z; sel_width : Z; sel_height : Z;
  sel_viewRotationCcw : Z
}.

Section Item.
  Context (F : Type) {SF : Scalar F}.
  Local Open Scope string_scope.
  Local Open Scope list_scope.
  Local Open Scope scalar_scope.

(** What is fixed for an item: [self.__origPos], [self.__radiusBild]
    and the class attribute [scaleCartesian2map]. *)
Record Origin : Type := mkOrigin {
  origPos : QPointF F;
  radiusBild : F;
  scaleCartesian2map : F
}.

Definition set_availability v (s : AerialImage F) : AerialImage F :=
  mkAerialImage (pos s) (transform s) (offset s) v (transformState s)
    (movable s) (hasFocus s) (opacity s) (saved_opacity s)
    (lock_visible s) (point_pos s) (point_transformState s) (row s)
    (in_scene s) (emitted s) (childItems s) (logger s).

Definition row_set_preview (p : string) (rect : list Z) (r : Row F)
  : Row F :=
  mkRow (usage r) (scenePos r) (trafo r) (trafoLocked r) (Some p)
    (Some rect).

(** [__originalTransform] *)
Definition originalTransform (o : Origin) : QTransform F :=
  let scale :=
    radiusBild o * scaleCartesian2map o / (of_Z pixMapWidth / of_Z 2) in
  fromScale scale scale.

(** [__resetTransform] *)
Definition resetTransform (o : Origin) (s : AerialImage F) : AerialImage F :=
  let s := setTransform (originalTransform o) s in
  let s := setPos (origPos o) s in
  setTransformState original s.

(** [self.transform() == self.__originalTransform() and
     self.pos() == self.__origPos] *)
Definition at_origin (o : Origin) (s : AerialImage F) : bool :=
  QTransform_eqb (transform s) (originalTransform o)
  && QPointF_eqb (pos s) (origPos o).

(** The action 'Unlock transform'. *)
Definition unlock (o : Origin) (s : AerialImage F) : AerialImage F :=
  setTransformState (if at_origin o s then original else changed) s.

(** The action 'Lock transform'. *)
Definition lock (s : AerialImage F) : AerialImage F :=
  setTransformState locked s.

(** [__deriveAvailability], with the signal it emits.  [filmDirExists]
    is what [filmDir.exists()] returns; the brush of the point is left
    out.  (An availability that is still [None] is kept as [missing]; the
    item is not in a scene then, so that there is no signal either way.) *)
Definition deriveAvailability (filmDirExists : bool) (s : AerialImage F)
  : option AvailabilityChanged * AerialImage F :=
  let path_ := path (row s) in
  let rect := previewRect (row s) in
  let a :=
    match path_ with
    | None => if filmDirExists then findPreview else missing
    | Some _ => match rect with None => image | Some _ => preview end
    end in
  let sig :=
    if negb (Availability_eqb (availability s) a) && in_scene s then
      let absPath :=
        match path_ with
        | None => no_path
        | Some p =>
            match rect with
            | Some _ => below_previewRootDir p
            | None => below_imageRootDir p
            end
        end in
      Some (mkAvailabilityChanged (Availability_value a) absPath)
    else None in
  (sig, setMovability (set_availability a s)).

(** [__findPreview], for what the dialog returns: [None] when it is not
    accepted.  The request of the pixmap that follows is a [RequestBegin]
    of [PixMap]. *)
Definition findPreview_ (filmDirExists : bool) (sel : option Selection)
  (s : AerialImage F) : option AvailabilityChanged * AerialImage F :=
  match sel with
  | None => (None, s)
  | Some d =>
      let rect := [sel_left d; sel_top d; sel_width d; sel_height d;
                   sel_viewRotationCcw d] in
      deriveAvailability filmDirExists
        (set_row (row_set_preview (sel_path d) rect (row s)) s)
  end.

(** [contextMenuEvent]: the entries of the menu, from top to bottom. *)
Definition contextMenuEvent (s : AerialImage F) : list MenuEntry :=
  (match availability s with
   | findPreview | preview => [action_Find_preview]
   | _ => []
   end)
  ++ [menu_section_Usage]
  ++ (if negb (Usage_eqb (usage (row s)) unset) then [action_Unset] else [])
  ++ (if negb (Usage_eqb (usage (row s)) selected) then [action_Select]
      else [])
  ++ (if negb (Usage_eqb (usage (row s)) discarded) then [action_Discard]
      else [])
  ++ [menu_separator]
  ++ (if TransformState_eqb (transformState s) locked then
        [action_Unlock_transform]
      else if movable s then
        (match availability s with
         | image => [action_Auto_georeference]
         | _ => []
         end) ++ [action_Lock_transform]
      else [])
  ++ (if TransformState_eqb (transformState s) changed then
        [action_Reset_transform]
      else []).

Definition offers (e : MenuEntry) (s : AerialImage F) : bool :=
  existsb (MenuEntry_eqb e) (contextMenuEvent s).

(** *** The mouse *)

(** [qMin] and [qBound] of qglobal.h; [qMax] is [py_max]. *)
Definition qMin (a b : F) : F := if a <? b then a else b.
Definition qBound (lo v hi : F) : F := py_max lo (qMin hi v).

(** [QGraphicsItem.setOpacity]: the value is bounded by 0 and 1, and
    nothing happens when it is the current one. *)
Definition setOpacity (v : F) (s : AerialImage F) : AerialImage F :=
  let o := qBound (of_Z 0) v (of_Z 1) in
  if feqb o (opacity s) then s else set_opacity o s.

(** [AerialImage.mousePressEvent] for a press of the left button or of
    another one, with or without Alt; the boolean tells whether the event
    stays accepted.  Cursors are left out. *)
Definition mousePressEvent (leftButton alt : bool) (s : AerialImage F)
  : bool * AerialImage F :=
  if negb (hasFocus s) then (false, s)
  else if leftButton then
    if alt then
      (true, setOpacity (of_Z 0) (set_saved_opacity (opacity s) s))
    else if movable s then (true, s)
    else (false, s)
  else (true, s).

(** [AerialImage.mouseReleaseEvent] *)
Definition mouseReleaseEvent (s : AerialImage F) : AerialImage F :=
  setOpacity (saved_opacity s) s.

(** [QGraphicsItem.mouseMoveEvent], which the image inherits: with the
    left button down, a movable item is moved to where the mouse takes
    it. *)
Definition mouseMoveEvent (to_ : QPointF F) (s : AerialImage F)
  : AerialImage F :=
  if movable s then setPos to_ s else s.

(** *** Creation *)

(** The item when [__init__] reaches the query of its row: at the
    origin, with the identity as transform, movable, not in a scene yet;
    the overlay with the lock is visible as every new item is.
    [self.__availability] is still [None], which [__setMovability] reads
    as [missing]; [log] is what the logger of the module holds. *)
Definition new_item (r : Row F) (log : list (LogRecord F)) : AerialImage F :=
  mkAerialImage (mkQPointF (of_Z 0) (of_Z 0))
    (mkQTransform (of_Z 1) (of_Z 0) (of_Z 0) (of_Z 0) (of_Z 1) (of_Z 0)
                  (of_Z 0) (of_Z 0) (of_Z 1))
    (mkQPointF (of_Z 0) (of_Z 0)) missing original true false
    (of_Z 1) (of_Z 1) true (mkQPointF (of_Z 0) (of_Z 0)) original r
    false [] [] log.

(** [__init__] for an image that has its row, up to
    [__setTransformState].  The texts of [scenePos] and [trafo] are the
    lists of two and of nine numbers that this program writes; there is no
    result for other lists. *)
Definition init_from_row (o : Origin) (log : list (LogRecord F))
  (r : Row F) : option (AerialImage F) :=
  match scenePos r, trafo r with
  | [x; y], [a11; a12; a13; a21; a22; a23; a31; a32; a33] =>
      let s := new_item r log in
      let s := setPos (mkQPointF x y) s in
      let s := setTransform
                 (mkQTransform a11 a12 a13 a21 a22 a23 a31 a32 a33) s in
      let trafoState :=
        if trafoLocked r then locked
        else if at_origin o s then original
        else changed in
      Some (setTransformState trafoState s)
  | _, _ => None
  end.

(** The row that [__init__] inserts for an image without one;
    [imageExists] is what [(imageRootDir / imgId).exists()] returns. *)
Definition inserted_row (o : Origin) (imgId : string) (imageExists : bool)
  : Row F :=
  mkRow unset [xp (origPos o); yp (origPos o)]
    [of_Z 1; of_Z 0; of_Z 0; of_Z 0; of_Z 1; of_Z 0; of_Z 0; of_Z 0; of_Z 1]
    false (if imageExists then Some imgId else None) None.

(** [AerialImage.__init__] up to and with [__deriveAvailability]; the
    calls of [__setUsage] and [__setPixMap] that follow set the overlays
    for the usage, the pixmap and its offset.  [existing] is the row of the
    image, if there is one. *)
Definition init (o : Origin) (log : list (LogRecord F)) (imgId : string)
  (existing : option (Row F)) (imageExists filmDirExists : bool)
  : option (AerialImage F) :=
  match
    match existing with
    | Some r => init_from_row o log r
    | None =>
        Some (resetTransform o
                (new_item (inserted_row o imgId imageExists) log))
    end
  with
  | Some s => Some (snd (deriveAvailability filmDirExists s))
  | None => None
  end.

(** *** What the user does with an item *)

Context {EF : Elementary F}.
Variable gdal_Open : string -> option Dataset.
Variable georef : Dataset -> GdalTrafo F ->
  string + (GdalTrafo F * list (QPointF F) * list (QPointF F)).


(** What the mouse does to the item, or an action of the context menu
    with what the user answers in the dialog that it opens.  The actions for
    the usage are not among them: they set the column [usage] and the
    overlays with cross and tick. *)
Inductive Input : Type :=
  | press_mouse (leftButton alt : bool)
  | move_mouse (to_ : QPointF F)
  | release_mouse
  | turn_wheel (ev : WheelEvent F)
  | choose_Find_preview (filmDirExists : bool) (sel : option Selection)
  | choose_Unlock_transform
  | choose_Auto_georeference (button : StandardButton)
  | choose_Lock_transform
  | choose_Reset_transform.

Definition entry_of (i : Input) : option MenuEntry :=
  match i with
  | press_mouse _ _ | move_mouse _ | release_mouse | turn_wheel _ => None
  | choose_Find_preview _ _ => Some action_Find_preview
  | choose_Unlock_transform => Some action_Unlock_transform
  | choose_Auto_georeference _ => Some action_Auto_georeference
  | choose_Lock_transform => Some action_Lock_transform
  | choose_Reset_transform => Some action_Reset_transform
  end.

(** What the slot of the input does to the item. *)
Definition slot (o : Origin) (i : Input) (s : AerialImage F)
  : AerialImage F :=
  match i with
  | press_mouse leftButton alt => snd (mousePressEvent leftButton alt s)
  | move_mouse to_ => mouseMoveEvent to_ s
  | release_mouse => mouseReleaseEvent s
  | turn_wheel ev => snd (wheelEvent ev s)
  | choose_Find_preview filmDirExists sel =>
      snd (findPreview_ filmDirExists sel s)
  | choose_Unlock_transform => unlock o s
  | choose_Auto_georeference button =>
      snd (georeference gdal_Open georef button s)
  | choose_Lock_transform => lock s
  | choose_Reset_transform => resetTransform o s
  end.

(** An action can be chosen only from a menu that has it. *)
Definition possible (i : Input) (s : AerialImage F) : bool :=
  match entry_of i with
  | None => true
  | Some e => offers e s
  end.

Definition handle (o : Origin) (s : AerialImage F) (i : Input)
  : AerialImage F :=
  if possible i s then slot o i s else s.

(** The item after a sequence of inputs. *)
Definition session (o : Origin) (is_ : list Input) (s : AerialImage F)
  : AerialImage F :=
  fold_left (handle o) is_ s.

(** The changes that [__georeference] and the events of the mouse make
    to an item: calls of [setPos] and [setTransform], children that come and
    go, records in the log, and the opacity. *)
Inductive updates : AerialImage F -> AerialImage F -> Prop :=
  | updates_none s : updates s s
  | updates_setPos s s' p : updates s s' -> updates s (setPos p s')
  | updates_setTransform s s' t :
      updates s s' -> updates s (setTransform t s')
  | updates_childItems s s' c :
      updates s s' -> updates s (set_childItems c s')
  | updates_logger s s' l : updates s s' -> updates s (set_logger l s')
  | updates_opacity s s' v : updates s s' -> updates s (set_opacity v s')
  | updates_saved_opacity s s' v :
      updates s s' -> updates s (set_saved_opacity v s').

(** *** Invariants *)

(** Lock overlay, column [trafoLocked], pen of the point and
    movability follow the state of the transform. *)
Definition coherent (s : AerialImage F) : Prop :=
  lock_visible s = TransformState_eqb (transformState s) locked /\
  trafoLocked (row s) = TransformState_eqb (transformState s) locked /\
  point_transformState s = transformState s /\
  movable s = ((2 <=? Availability_value (availability s))%Z
               && negb (TransformState_eqb (transformState s) locked)).

(** The columns [scenePos] and [trafo] hold position and transform. *)
Definition stored (s : AerialImage F) : Prop :=
  scenePos (row s) = [xp (pos s); yp (pos s)] /\
  trafo (row s) =
    [m11 (transform s); m12 (transform s); m13 (transform s);
     m21 (transform s); m22 (transform s); m23 (transform s);
     m31 (transform s); m32 (transform s); m33 (transform s)].

(** The availability is the one of the columns [path] and
    [previewRect]. *)
Definition derived (s : AerialImage F) : Prop :=
  match path (row s), previewRect (row s) with
  | Some _, None => availability s = image
  | Some _, Some _ => availability s = preview
  | None, None => availability s = missing \/ availability s = findPreview
  | None, Some _ => False   (* CHECK(previewRect ISNULL OR path NOTNULL) *)
  end.

(** An item in state [original] is where it started. *)
Definition original_at_origin (o : Origin) (s : AerialImage F) : Prop :=
  transformState s = original -> at_origin o s = true.

(** *** The z value *)



End Item.
End AerialUI.

(* ------------------------------------------------------------------ *)
(** ** Schedules of the delivery of pixmaps *)

Module PixMapSchedule.
Import PixMap.

(** What is between the blocks of a callback, waits to be painted or has
    been painted belongs to a decoding that has returned; there are no more
    of the latter two than calls of [update]. *)
Definition settled (s : State) : Prop :=
  (forall f, In f (checked s) \/ futurePixmap s = Some f \/ In f (pixmaps s) ->
             fstate s f = FINISHED /\ (f < submitted s)%nat) /\
  (List.length (pixmaps s)
   + (match futurePixmap s with Some _ => 1 | None => 0 end)
   <= updates s)%nat.

(** A request is over when the GUI thread is idle again. *)
Definition request (p : Params) (s s' : State) : Prop :=
  gui s' = Idle /\
  (step s (RequestBegin p) = Some s' \/
   run s [RequestBegin p; RequestEnd] = Some s').
End PixMapSchedule.

(* ------------------------------------------------------------------ *)
(** ** Image or point

    An [AerialObject] shows its aerial as image or as point.  Of the two
    items only the visibility is kept here. *)
Module Visibility.
Import Aerial.

(** [class Visualization(enum.Enum)] *)
Inductive Visualization : Type := none | asPoint | asImage.

Definition Visualization_eqb (a b : Visualization) : bool :=
  match a, b with
  | none, none | asPoint, asPoint | asImage, asImage => true
  | _, _ => false
  end.

Record Shown : Type := mkShown {
  image_visible : bool;   (* self.image().isVisible() *)
  point_visible : bool    (* self.__point().isVisible() *)
}.

Inductive MouseButton : Type := LeftButton | OtherButton.

(** [AerialObject.__init__] hides the image; the point is visible as
    every new item is. *)
Definition initial : Shown := mkShown false true.

(** [AerialObject.__setVisualization] for the image with the given id,
    usage and availability; the dicts are the functions that their [get]
    is. *)
Definition setVisualization (usages : Usage -> option bool)
  (visualizations : Availability -> option Visualization)
  (filteredImageIds : list string)
  (id : string) (u : Usage) (a : Availability) (v : Shown) : Shown :=
  match usages u, visualizations a with
  | Some usageIsOn, Some visualization =>
      let isFiltered :=
        match filteredImageIds with
        | [] => true
        | _ => existsb (String.eqb id) filteredImageIds
        end in
      mkShown
        (Visualization_eqb visualization asImage && usageIsOn && isFiltered)
        (Visualization_eqb visualization asPoint && usageIsOn && isFiltered)
  | _, _ => v
  end.

(** [AerialObject.__showAsImage] *)
Definition showAsImage (id imgId : string) (show : bool) (v : Shown)
  : Shown :=
  if String.eqb id imgId then mkShown show (negb show) else v.

(** [AerialImage.mouseDoubleClickEvent] *)
Definition image_mouseDoubleClickEvent (b : MouseButton) (v : Shown)
  : Shown :=
  match b with LeftButton => mkShown false true | OtherButton => v end.

(** [AerialPoint.mouseDoubleClickEvent] *)
Definition point_mouseDoubleClickEvent (b : MouseButton) (v : Shown)
  : Shown :=
  match b with LeftButton => mkShown true false | OtherButton => v end.

(** What reaches the object of the image with a given id. *)
Inductive Event : Type :=
  | visualizationChanged (usages : Usage -> option bool)
      (visualizations : Availability -> option Visualization)
      (filteredImageIds : list string) (u : Usage) (a : Availability)
  | showAsImage_ (imgId : string) (show : bool)
  | double_click_on_image (b : MouseButton)
  | double_click_on_point (b : MouseButton).

Definition react (id : string) (v : Shown) (e : Event) : Shown :=
  match e with
  | visualizationChanged us vs ids u a => setVisualization us vs ids id u a v
  | showAsImage_ imgId show => showAsImage id imgId show v
  | double_click_on_image b => image_mouseDoubleClickEvent b v
  | double_click_on_point b => point_mouseDoubleClickEvent b v
  end.
End Visibility.

(* ------------------------------------------------------------------ *)
(** ** More sample data *)

Module UISamples.
  Import Aerial AerialUI RealModel.
  Local Open Scope R_scope.

(** The film of [Samples.Real.film_item]: a radius of 3000 m at a scale of
    1 gives the original scale 2. *)
Definition film_origin : Origin R := mkOrigin (mkQPointF 10 20) 3000 1.

(** The same image with its transform locked. *)
Definition locked_item : AerialImage R :=
  mkAerialImage (mkQPointF 10 20) (fromScale 2 2)
    (mkQPointF 0 0) image locked false true 1 1 true
    (mkQPointF 10 20) locked
    (mkRow unset [10; 20] [2; 0; 0; 0; 2; 0; 0; 0; 1] true
       (Some "4711/0815.ecw"%string) None)
    true [] [] [].

(** One notch of the wheel with Alt. *)
Definition alt_notch : WheelEvent R :=
  mkWheelEvent 120 false true false (mkQPointF 10 0).


(** One request, decoded and painted. *)
Definition one_request : list PixMap.Event :=
  [PixMap.RequestBegin Samples.histogram_request; PixMap.RequestEnd;
   PixMap.WorkerStart 0%nat; PixMap.WorkerDone 0%nat; PixMap.WorkerStore 0%nat;
   PixMap.Paint].
End UISamples.

(* ------------------------------------------------------------------ *)
(** * Properties *)

(** ** Comparisons *)

Section CompareFacts.
  Context (F : Type) {SF : Scalar F} {CS : ScalarCompareSym F}.

Lemma QPointF_eqb_sym (p q : QPointF F) : QPointF_eqb p q = QPointF_eqb q p.
Proof.
  unfold QPointF_eqb.
  now rewrite (fuzzy_eqb_sym (xp p)), (fuzzy_eqb_sym (yp p)).
Qed.

Lemma QTransform_eqb_sym (s t : QTransform F) :
  QTransform_eqb s t = QTransform_eqb t s.
Proof.
  unfold QTransform_eqb.
  now rewrite (feqb_sym (m11 s)), (feqb_sym (m12 s)), (feqb_sym (m13 s)),
    (feqb_sym (m21 s)), (feqb_sym (m22 s)), (feqb_sym (m23 s)),
    (feqb_sym (m31 s)), (feqb_sym (m32 s)), (feqb_sym (m33 s)).
Qed.
End CompareFacts.

Module RealFacts.
  Import RealModel.


Lemma Reqb_true (a b : R) : Reqb a b = true <-> a = b.
Proof. unfold Reqb. destruct (Req_dec_T a b); split; intros; easy. Qed.


Lemma Reqb_sym (a b : R) : Reqb a b = Reqb b a.
Proof.
  unfold Reqb. destruct (Req_dec_T a b), (Req_dec_T b a); congruence.
Qed.

#[export] Instance ScalarCompareSym_R : ScalarCompareSym R.
Proof. split; exact Reqb_sym. Qed.
End RealFacts.

(** Comparisons of binary64 numbers, from the specification of the
    primitive operations. *)
Module Binary64Facts.
  Import Floats Binary64.
  Local Open Scope float_scope.

Lemma SFcompare_antisym (x y : spec_float) :
  SFcompare y x = option_map CompOpp (SFcompare x y).
Proof.
  destruct x as [sx|sx| |sx mx ex], y as [sy|sy| |sy my ey]; cbn;
    try reflexivity;
    try (destruct sx; reflexivity); try (destruct sy; reflexivity);
    try (destruct sx, sy; reflexivity).
  pose proof (Pos.compare_cont_antisym mx my Eq) as H. cbn in H.
  destruct sx, sy; try reflexivity;
    rewrite (Z.compare_antisym ex ey);
    destruct (ex ?= ey)%Z; cbn; try reflexivity;
    rewrite <- H; destruct (Pos.compare_cont Eq mx my); reflexivity.
Qed.

Lemma SFeqb_sym (x y : spec_float) : SFeqb x y = SFeqb y x.
Proof.
  unfold SFeqb. rewrite (SFcompare_antisym x y).
  destruct (SFcompare x y) as [[]|]; reflexivity.
Qed.

Lemma float_eqb_sym (a b : float) : (a =? b) = (b =? a).
Proof. rewrite !eqb_spec. apply SFeqb_sym. Qed.

Lemma SFabs_binary_round (s : bool) (m : positive) (e : Z) :
  SFabs (binary_round prec emax s m e)
  = SFabs (binary_round prec emax false m e).
Proof.
  unfold binary_round, binary_round_aux.
  destruct (shl_align _ _ _) as [mz ez].
  destruct (shr_fexp _ _ _ _ _) as [mrs' e'].
  destruct (shr_fexp _ _ _ _ _) as [mrs'' e''].
  destruct (shr_m mrs''); try reflexivity.
  destruct (Z.leb _ _); reflexivity.
Qed.

Lemma SFabs_binary_normalize_opp (m e : Z) :
  SFabs (binary_normalize prec emax (- m) e false)
  = SFabs (binary_normalize prec emax m e false).
Proof.
  destruct m; cbn; [reflexivity| |];
    rewrite (SFabs_binary_round true); reflexivity.
Qed.

Lemma SFabs_sub_sym (x y : spec_float) :
  SFabs (SF64sub x y) = SFabs (SF64sub y x).
Proof.
  unfold SF64sub.
  destruct x as [sx|sx| |sx mx ex], y as [sy|sy| |sy my ey]; cbn;
    try reflexivity;
    try (destruct sx; reflexivity); try (destruct sy; reflexivity);
    try (destruct sx, sy; reflexivity).
  rewrite (Z.min_comm ey ex).
  rewrite <- SFabs_binary_normalize_opp. f_equal. f_equal. lia.
Qed.

Lemma abs_sub_sym (p q : float) : abs (p - q) = abs (q - p).
Proof.
  apply Prim2SF_inj. rewrite !abs_spec, !sub_spec. apply SFabs_sub_sym.
Qed.

Lemma SFcompare_Eq_right (a b : spec_float) :
  SFcompare a b = Some Eq -> forall x, SFcompare x b = SFcompare x a.
Proof.
  destruct a as [sa|sa| |sa ma ea], b as [sb|sb| |sb mb eb]; cbn;
    intros H x; try discriminate;
    try (destruct sa; discriminate); try (destruct sb; discriminate).
  - destruct x; reflexivity.
  - destruct sa, sb; try discriminate; reflexivity.
  - assert (E : sa = sb /\ ea = eb /\ ma = mb).
    { destruct sa, sb; try discriminate;
        destruct (ea ?= eb)%Z eqn:Ee; try discriminate;
        apply Z.compare_eq in Ee;
        (destruct (Pos.compare_cont Eq ma mb) eqn:Em; try discriminate);
        apply Pos.compare_eq in Em; auto. }
    destruct E as (-> & -> & ->). reflexivity.
Qed.

Lemma SFcompare_None (a b : spec_float) :
  SFcompare a b = None -> a = S754_nan \/ b = S754_nan.
Proof.
  destruct a as [sa|sa| |sa ma ea], b as [sb|sb| |sb mb eb]; cbn;
    try discriminate; auto.
Qed.

Lemma SFabs_nan (a : spec_float) : SFabs a = S754_nan -> a = S754_nan.
Proof. destruct a; cbn; congruence. Qed.

Lemma qFuzzyCompare_sym (p q : float) : qFuzzyCompare p q = qFuzzyCompare q p.
Proof.
  unfold qFuzzyCompare. rewrite (abs_sub_sym q p).
  set (x := abs (p - q) * 1000000000000).
  assert (N : SFcompare (Prim2SF (abs p)) (Prim2SF (abs q)) = None ->
              Prim2SF x = S754_nan).
  { intros E. unfold x. rewrite mul_spec, abs_spec, sub_spec.
    apply SFcompare_None in E. rewrite !abs_spec in E.
    destruct E as [E|E]; apply SFabs_nan in E; rewrite E;
      [reflexivity|]. destruct (Prim2SF p); reflexivity. }
  clearbody x.
  rewrite !ltb_spec. unfold SFltb.
  rewrite (SFcompare_antisym (Prim2SF (abs p)) (Prim2SF (abs q))).
  destruct (SFcompare (Prim2SF (abs p)) (Prim2SF (abs q))) as [[]|] eqn:E;
    cbn; try reflexivity.
  - rewrite !leb_spec. unfold SFleb.
    now rewrite (SFcompare_Eq_right _ _ E).
  - rewrite !leb_spec, (N eq_refl). reflexivity.
Qed.

Lemma coord_eqb_sym (p q : float) : coord_eqb p q = coord_eqb q p.
Proof.
  unfold coord_eqb, qFuzzyIsNull.
  rewrite (orb_comm (q =? 0)), (abs_sub_sym q p), (qFuzzyCompare_sym q p).
  reflexivity.
Qed.

(** Qt's comparisons of binary64 numbers are symmetric. *)
#[export] Instance ScalarCompareSym_float : ScalarCompareSym float.
Proof. split; [exact float_eqb_sym|exact coord_eqb_sym]. Qed.
End Binary64Facts.

(** ** Automatic georeferencing, for any number model *)

Module AerialFacts.
Import Aerial.

Section Georeference.
  Context (F : Type) {SF : Scalar F}.
  Variable gdal_Open : string -> option Dataset.
  Variable georef : Dataset -> GdalTrafo F ->
    string + (GdalTrafo F * list (QPointF F) * list (QPointF F)).

Local Abbreviation georeference := (georeference gdal_Open georef).
Local Abbreviation before_matcher := (before_matcher (F:=F) gdal_Open).

Ltac run_monad :=
  unfold assert_, log_, bind, gets, modify, ret, raise in *; cbn in *.

(** Nothing is changed before the matcher is called. *)
Lemma before_matcher_pure (st : AerialImage F) :
  snd (before_matcher st) = st.
Proof.
  unfold Aerial.before_matcher. run_monad.
  destruct (is_001 (m31 (transform st)) (m32 (transform st))
              (m33 (transform st))); [|reflexivity].
  destruct (is_001 (m13 (transform st)) (m23 (transform st))
              (m33 (transform st))); [|reflexivity].
  destruct (previewRect (row st)); [reflexivity|].
  destruct (path (row st)) as [p|]; [|reflexivity].
  destruct (gdal_Open p) as [ds|]; [|reflexivity].
  destruct (RasterXSize ds =? 0)%Z; reflexivity.
Qed.

(** What is known once the matcher is reached. *)
Lemma before_matcher_Ok (st st' : AerialImage F) (c : Prepared F) :
  before_matcher st = (Ok c, st') ->
  st' = st /\ p_pos c = pos st /\ p_tr c = transform st /\
  homogeneous (transform st) = true /\ previewRect (row st) = None /\
  path (row st) = Some (p_path c) /\ gdal_Open (p_path c) = Some (p_ds c) /\
  RasterXSize (p_ds c) <> 0%Z.
Proof.
  unfold Aerial.before_matcher, homogeneous. run_monad.
  destruct (is_001 (m31 (transform st)) (m32 (transform st))
              (m33 (transform st))); [|discriminate].
  destruct (is_001 (m13 (transform st)) (m23 (transform st))
              (m33 (transform st))); [|discriminate].
  destruct (previewRect (row st)); [discriminate|].
  destruct (path (row st)) as [p|]; [|discriminate].
  destruct (gdal_Open p) as [ds|] eqn:Hopen; [|discriminate].
  destruct (RasterXSize ds =? 0)%Z eqn:Hx; [discriminate|].
  intros H; inversion H; subst; cbn.
  apply Z.eqb_neq in Hx. repeat split; auto.
Qed.

Lemma before_matcher_Raise (st st' : AerialImage F) (e : exn) :
  before_matcher st = (Raise e, st') -> st' = st.
Proof.
  intros H. pose proof (before_matcher_pure st) as P.
  rewrite H in P. exact P.
Qed.

(** *** What the setters touch *)

Ltac setter_fields :=
  unfold setPos, setTransform, itemChange_ItemPositionHasChanged,
    itemChange_ItemTransformHasChanged, setTransformState, setMovability,
    point_setPos, emit, remove_items;
  cbn;
  repeat match goal with
         | |- context [if ?b then _ else _] => destruct b; cbn
         end;
  reflexivity.

Lemma setPos_pos p (s : AerialImage F) :
  pos (setPos p s) = if QPointF_eqb (pos s) p then pos s else p.
Proof. unfold setPos. destruct (QPointF_eqb (pos s) p); setter_fields. Qed.

Lemma setPos_transform p (s : AerialImage F) :
  transform (setPos p s) = transform s.
Proof. setter_fields. Qed.


Lemma setTransform_transform t (s : AerialImage F) :
  transform (setTransform t s)
  = if QTransform_eqb (transform s) t then transform s else t.
Proof.
  unfold setTransform. destruct (QTransform_eqb (transform s) t);
    setter_fields.
Qed.

Lemma setTransform_pos t (s : AerialImage F) :
  pos (setTransform t s) = pos s.
Proof. setter_fields. Qed.


Lemma remove_items_fields n (s : AerialImage F) :
  pos (remove_items n s) = pos s /\
  transform (remove_items n s) = transform s /\
  logger (remove_items n s) = logger s.
Proof. repeat split. Qed.

(** The loop that shows the homologous points only adds children. *)
Lemma add_items_childItems (a o : list (QPointF F)) :
  forall s : AerialImage F,
    snd (add_items a o s)
    = set_childItems (childItems (snd (add_items a o s))) s.
Proof.
  revert o. induction a as [|p a IH]; intros [|q o] s; cbn;
    try (destruct s; reflexivity).
  unfold bind, modify. cbn.
  specialize (IH o (set_childItems
                      (childItems s ++ [EllipseItem p; LineItem p q]) s)).
  destruct (add_items a o _) as [[n|e] s1]; cbn in *;
    rewrite IH; destruct s; reflexivity.
Qed.

Lemma add_items_fields (a o : list (QPointF F)) (s : AerialImage F) :
  let s' := snd (add_items a o s) in
  pos s' = pos s /\ transform s' = transform s /\ offset s' = offset s /\
  logger s' = logger s /\ row s' = row s.
Proof.
  cbn. rewrite add_items_childItems. repeat split.
Qed.

(** Setting a position and a transform and then the previous ones again
    gives the previous ones back, whatever was noted in between. *)
Lemma restore_placement {CS : ScalarCompareSym F}
  (s : AerialImage F) p t (r : LogRecord F) :
  let s2 := setTransform t (setPos p s) in
  let s3 := set_logger (logger s2 ++ [r]) s2 in
  let s4 := setTransform (transform s) (setPos (pos s) s3) in
  pos s4 = pos s /\ transform s4 = transform s.
Proof.
  cbn. split.
  - rewrite setTransform_pos, setPos_pos. cbn.
    rewrite setTransform_pos, setPos_pos.
    destruct (QPointF_eqb (pos s) p) eqn:E.
    + destruct (QPointF_eqb (pos s) (pos s)); reflexivity.
    + rewrite (QPointF_eqb_sym (CS:=CS)), E. reflexivity.
  - rewrite setTransform_transform, setPos_transform. cbn.
    rewrite setTransform_transform, setPos_transform.
    destruct (QTransform_eqb (transform s) t) eqn:E.
    + destruct (QTransform_eqb (transform s) (transform s)); reflexivity.
    + rewrite (QTransform_eqb_sym (CS:=CS)), E. reflexivity.
Qed.

(** *** The runs of [__georeference] *)

Lemma after_matcher_run (c : Prepared F) (b : StandardButton)
  (g : GdalTrafo F) (a o : list (QPointF F)) (s : AerialImage F) :
  let k := fdiv (of_Z pixMapWidth) (of_Z (RasterXSize (p_ds c))) in
  let a' := to_display k (offset s) a in
  let shown := add_items a' (to_display k (offset s) o) s in
  after_matcher c b g a o s =
  match fst shown with
  | Raise e => (Raise e, snd shown)
  | Ok n =>
      if feqb k (of_Z 0) then (Raise ZeroDivisionError, snd shown)
      else
        let g' := to_scene (fdiv (of_Z 1) k) g in
        let s2 := setTransform (newTr_of g')
                    (setPos (newPos_of g' (offset s)) (snd shown)) in
        let s3 := set_logger
                    (logger s2
                     ++ [diagnostics c g' (offset s) (List.length a')]) s2 in
        let s4 := match b with
                  | No => setTransform (p_tr c) (setPos (p_pos c) s3)
                  | Yes => s3
                  end in
        (Ok tt, remove_items n s4)
  end.
Proof.
  unfold after_matcher, diagnostics. run_monad.
  destruct (add_items _ _ s) as [[n|e] s1]; cbn; [|reflexivity].
  destruct (feqb _ (of_Z 0)); cbn; [reflexivity|].
  destruct b; reflexivity.
Qed.

Lemma georeference_run (b : StandardButton) (st : AerialImage F) :
  georeference b st =
  match fst (before_matcher st) with
  | Raise e => (Raise e, st)
  | Ok c =>
      match georef (p_ds c) (p_gdalTrafo c) with
      | inl exc_info =>
          (Ok tt,
           set_logger
             (logger st
              ++ [log_exception F "Automatic georeferencing failed."
                    exc_info]) st)
      | inr (g, a, o) => after_matcher c b g a o st
      end
  end.
Proof.
  unfold Aerial.georeference, bind.
  pose proof (before_matcher_pure st) as P.
  destruct (before_matcher st) as [[c|e] s1]; cbn in *; subst s1;
    [|reflexivity].
  destruct (georef (p_ds c) (p_gdalTrafo c)) as [exc|[[g a] o]];
    reflexivity.
Qed.

(** What a failing matcher leaves behind. *)
Lemma georeference_matcher_raises (b : StandardButton)
  (st : AerialImage F) (c : Prepared F) (exc : string) :
  fst (before_matcher st) = Ok c ->
  georef (p_ds c) (p_gdalTrafo c) = inl exc ->
  georeference b st =
  (Ok tt,
   set_logger
     (logger st
      ++ [log_exception F "Automatic georeferencing failed." exc]) st).
Proof.
  intros Hc Hg. rewrite georeference_run, Hc, Hg. reflexivity.
Qed.

(** The transform after the call is the one before it or the refined
    one. *)
Lemma georeference_transform_cases (b : StandardButton)
  (st : AerialImage F) :
  transform (snd (georeference b st)) = transform st \/
  exists g, transform (snd (georeference b st)) = newTr_of g.
Proof.
  rewrite georeference_run.
  destruct (fst (before_matcher st)) as [c|e] eqn:Hc; [|now left].
  destruct (georef (p_ds c) (p_gdalTrafo c)) as [exc|[[g a] o]];
    [now left|].
  rewrite after_matcher_run. cbn zeta.
  set (k := fdiv (of_Z pixMapWidth) (of_Z (RasterXSize (p_ds c)))).
  set (shown := add_items _ _ st).
  destruct (add_items_fields (to_display k (offset st) a)
              (to_display k (offset st) o) st) as (_ & Ht & _).
  fold shown in Ht.
  destruct (fst shown) as [n|e]; [|left; exact Ht].
  destruct (feqb k (of_Z 0)); [left; exact Ht|].
  assert (Hp : p_tr c = transform st).
  { destruct (before_matcher st) as [r s1] eqn:E. cbn in Hc. subst r.
    apply before_matcher_Ok in E. tauto. }
  cbn [snd]. unfold remove_items. cbn [transform set_childItems].
  destruct b.
  - cbn [transform set_logger]. rewrite setTransform_transform,
      setPos_transform, Ht.
    destruct (QTransform_eqb _ _); [now left|right; eauto].
  - rewrite setTransform_transform, setPos_transform.
    cbn [transform set_logger].
    rewrite setTransform_transform, setPos_transform, Ht, Hp.
    destruct (QTransform_eqb (transform st) _).
    + destruct (QTransform_eqb _ _); now left.
    + destruct (QTransform_eqb _ _); [right; eauto|now left].
Qed.

(** *** The contract of the refinement *)

(** C2. Whatever the matcher returns, after [__georeference] with the
    answer No the item has the position and the transform it had before
    the call: the very values, since [pos] and [tr] are set again and Qt
    skips a setter only for a value that compares equal both ways.  The
    comparisons of binary64 numbers are of that kind
    ([Binary64Facts.ScalarCompareSym_float]), so the values are the same
    bit for bit. *)
Theorem reject_restores_placement {CS : ScalarCompareSym F}
  (st : AerialImage F) :
  pos (snd (georeference No st)) = pos st /\
  transform (snd (georeference No st)) = transform st.
Proof.
  rewrite georeference_run.
  destruct (before_matcher st) as [[c|e] s1] eqn:E; cbn [fst];
    [|now split].
  apply before_matcher_Ok in E. destruct E as (_ & Hpos & Htr & _).
  destruct (georef (p_ds c) (p_gdalTrafo c)) as [exc|[[g a] o]];
    [now split|].
  rewrite after_matcher_run. cbn zeta.
  set (k := fdiv (of_Z pixMapWidth) (of_Z (RasterXSize (p_ds c)))).
  set (shown := add_items _ _ st).
  destruct (add_items_fields (to_display k (offset st) a)
              (to_display k (offset st) o) st) as (Hp & Ht & _).
  fold shown in Hp, Ht.
  destruct (fst shown) as [n|e]; [|now split].
  destruct (feqb k (of_Z 0)); [now split|].
  cbn [snd]. unfold remove_items. cbn [pos transform set_childItems].
  rewrite Hpos, Htr, <- Hp, <- Ht.
  apply restore_placement.
Qed.

(** C3. When the matcher raises, the call returns normally and the item
    is as before, but for the record in the log: position, transform and
    database row are untouched. *)
Theorem matcher_failure_leaves_placement (b : StandardButton)
  (st : AerialImage F) (c : Prepared F) (exc : string) :
  fst (before_matcher st) = Ok c ->
  georef (p_ds c) (p_gdalTrafo c) = inl exc ->
  fst (georeference b st) = Ok tt /\
  pos (snd (georeference b st)) = pos st /\
  transform (snd (georeference b st)) = transform st /\
  row (snd (georeference b st)) = row st /\
  set_logger (logger st) (snd (georeference b st)) = st.
Proof.
  intros Hc Hg. rewrite (georeference_matcher_raises b st Hc Hg).
  cbn. repeat split. destruct st; reflexivity.
Qed.

(** C4. On an image whose row has a preview rectangle the call ends in
    an AssertionError, and the state is the one before the call. *)
Theorem preview_is_rejected (b : StandardButton) (st : AerialImage F)
  (rect : list Z) :
  previewRect (row st) = Some rect ->
  exists site, georeference b st = (Raise (AssertionError site), st).
Proof.
  intros Hr.
  assert (H : exists site,
             fst (before_matcher st) = Raise (AssertionError site)).
  { unfold Aerial.before_matcher. run_monad.
    destruct (is_001 (m31 (transform st)) _ _); [|cbn; eauto].
    destruct (is_001 (m13 (transform st)) _ _); [|cbn; eauto].
    rewrite Hr. cbn. eauto. }
  destruct H as [site H]. exists site.
  now rewrite georeference_run, H.
Qed.

(** C5. If (0, 0, 1) passes the test of the assertions, as it does in
    any sensible arithmetic, and the transform of the item passes it
    before the call, then so does the transform after the call: it is
    either the one before, or the refined one, whose projective and
    translation entries are 0 and whose [m33] is 1. *)
Theorem refined_transform_is_homogeneous (b : StandardButton)
  (st : AerialImage F) :
  is_001 (of_Z 0) (of_Z 0) (of_Z 1) = true ->
  homogeneous (transform st) = true ->
  let t' := transform (snd (georeference b st)) in
  homogeneous t' = true /\
  (t' = transform st \/
   (m13 t' = of_Z 0 /\ m23 t' = of_Z 0 /\ m33 t' = of_Z 1 /\
    m31 t' = of_Z 0 /\ m32 t' = of_Z 0)).
Proof.
  intros H001 Hst. cbn zeta.
  destruct (georeference_transform_cases b st) as [E|[g E]]; rewrite E.
  - auto.
  - split; [|right; cbn; repeat split].
    unfold homogeneous. cbn. now rewrite H001.
Qed.

(** C1, as the code has it.  An exception raised before the matcher is
    called reaches the caller, with the state untouched; an exception
    raised by the matcher does not: the call returns None, as it does
    after a success, and the failure is only written to the log. *)
Theorem matcher_failure_is_logged (b : StandardButton)
  (st : AerialImage F) :
  (forall e, fst (before_matcher st) = Raise e ->
     georeference b st = (Raise e, st)) /\
  (forall c exc, fst (before_matcher st) = Ok c ->
     georef (p_ds c) (p_gdalTrafo c) = inl exc ->
     fst (georeference b st) = Ok tt /\
     logger (snd (georeference b st))
     = logger st
       ++ [log_exception F "Automatic georeferencing failed." exc]).
Proof.
  split.
  - intros e He. now rewrite georeference_run, He.
  - intros c exc Hc Hg.
    now rewrite (georeference_matcher_raises b st Hc Hg).
Qed.

(** *** The diagnostics *)



(** *** The assertions *)

Lemma add_items_raises (a o : list (QPointF F)) :
  forall (s : AerialImage F) (e : exn),
    fst (add_items a o s) = Raise e -> e = ValueError.
Proof.
  revert o. induction a as [|p a IH]; intros [|q o] s e; cbn;
    try discriminate; try (intros H; now inversion H).
  unfold bind, modify. cbn.
  specialize (IH o (set_childItems
                      (childItems s ++ [EllipseItem p; LineItem p q]) s) e).
  destruct (add_items a o _) as [[n|e'] s1]; cbn in *;
    [discriminate|exact IH].
Qed.


End Georeference.

(** *** Runs in binary64 *)

Import Binary64 Binary64Facts Samples.B64.

(** C1 as the contract has it fails on the sample image: the matcher
    raises, and the caller gets the same None as after a success. *)
Lemma matcher_failure_is_not_surfaced :
  (exists c exc,
      fst (before_matcher open_scan film_item) = Ok c /\
      no_matches (p_ds c) (p_gdalTrafo c) = inl exc) /\
  ~ (exists e, fst (georeference open_scan no_matches Yes film_item)
               = Raise e) /\
  fst (georeference open_scan no_matches Yes film_item)
  = fst (georeference open_scan tripled Yes film_item).
Proof.
  split; [|split].
  - eexists. eexists. split; reflexivity.
  - intros [e H]. vm_compute in H. discriminate.
  - vm_compute. reflexivity.
Qed.

Lemma matcher_failure_is_logged_witness :
  fst (georeference open_scan no_matches No film_item) = Ok tt /\
  logger (snd (georeference open_scan no_matches No film_item))
  = [log_exception PrimFloat.float "Automatic georeferencing failed."
       "no matches"].
Proof.
  eapply (proj2 (matcher_failure_is_logged open_scan no_matches No film_item));
    reflexivity.
Defined.

Lemma matcher_failure_leaves_placement_witness :
  fst (georeference open_scan no_matches Yes film_item) = Ok tt /\
  pos (snd (georeference open_scan no_matches Yes film_item))
  = pos film_item /\
  transform (snd (georeference open_scan no_matches Yes film_item))
  = transform film_item /\
  row (snd (georeference open_scan no_matches Yes film_item))
  = row film_item /\
  set_logger (logger film_item)
    (snd (georeference open_scan no_matches Yes film_item))
  = film_item.
Proof.
  eapply (@matcher_failure_leaves_placement PrimFloat.float _ open_scan
            no_matches Yes film_item);
    reflexivity.
Defined.

Lemma preview_is_rejected_witness :
  exists site,
    georeference open_scan tripled Yes preview_item
    = (Raise (AssertionError site), preview_item).
Proof.
  apply (@preview_is_rejected PrimFloat.float _ open_scan tripled Yes
           preview_item [0; 0; 800; 600; 0]%Z).
  reflexivity.
Defined.

Lemma refined_transform_is_homogeneous_witness :
  let t' := transform (snd (georeference open_scan tripled Yes film_item)) in
  homogeneous t' = true /\
  (t' = transform film_item \/
   (m13 t' = of_Z 0 /\ m23 t' = of_Z 0 /\ m33 t' = of_Z 1 /\
    m31 t' = of_Z 0 /\ m32 t' = of_Z 0)).
Proof.
  apply (@refined_transform_is_homogeneous PrimFloat.float _ open_scan
           tripled Yes film_item);
    vm_compute; reflexivity.
Defined.

(** The matcher that triples the scale makes the call report a scale
    of 3 for one pair of points. *)
Example diagnostics_binary64 :
  exists shift,
    logger (snd (georeference open_scan tripled Yes film_item))
    = [log_info_georeferenced "4711/0815.ecw" 1 shift (of_Z 3)].
Proof. eexists. vm_compute. reflexivity. Qed.

Lemma reject_restores_placement_witness :
  pos (snd (georeference open_scan tripled No film_item)) = pos film_item /\
  transform (snd (georeference open_scan tripled No film_item))
  = transform film_item.
Proof.
  exact (reject_restores_placement open_scan tripled film_item).
Defined.

(** The preview of a tripled scale is shown, logged and taken back. *)
Example reject_restores_placement_binary64 :
  let st' := snd (georeference open_scan tripled No film_item) in
  transform (snd (georeference open_scan tripled Yes film_item))
  = fromScale (of_Z 6) (of_Z 6) /\
  pos st' = pos film_item /\ transform st' = transform film_item /\
  transformState st' = changed.
Proof. vm_compute. repeat split. Qed.
End AerialFacts.

(** ** Automatic georeferencing in real arithmetic *)

Module AerialRealFacts.
Import Aerial RealModel RealFacts AerialFacts.
Local Open Scope R_scope.







Section Georeference.
  Variable gdal_Open : string -> option Dataset.
  Variable georef : Dataset -> GdalTrafo R ->
    string + (GdalTrafo R * list (QPointF R) * list (QPointF R)).

Local Abbreviation georeference := (georeference gdal_Open georef).



End Georeference.

(** *** The mouse wheel *)





(** *** Runs on the sample image *)

Import Samples.






End AerialRealFacts.

(** ** Delivery of decoded pixmaps *)

Module PixMapFacts.
Import PixMap.

Lemma run_app (es1 es2 : list Event) :
  forall s : State,
    run s (es1 ++ es2)
    = match run s es1 with Some s' => run s' es2 | None => None end.
Proof.
  induction es1 as [|e es1 IH]; intros s; cbn; [reflexivity|].
  destruct (step s e); [apply IH|reflexivity].
Qed.

(** Nothing is painted any more once the GUI thread waits for its own
    lock. *)
Lemma deadlock_step (s s' : State) (e : Event) :
  gui s = Deadlocked -> step s e = Some s' ->
  gui s' = Deadlocked /\ pixmaps s' = pixmaps s.
Proof.
  intros G. unfold step. rewrite G.
  destruct e as [p| |f|f|f|]; try discriminate.
  - destruct (Nat.ltb f (submitted s)); [|discriminate].
    destruct (fstate s f); try discriminate;
      intros H; inversion H; cbn; auto.
  - destruct (Nat.ltb f (submitted s)); [|discriminate].
    destruct (fstate s f); try discriminate.
    intros H; inversion H; cbn; auto.
  - destruct (existsb (Nat.eqb f) (checked s)); [|discriminate].
    intros H; inversion H; cbn; auto.
Qed.

Lemma deadlock_run (es : list Event) :
  forall s s' : State,
    gui s = Deadlocked -> run s es = Some s' ->
    gui s' = Deadlocked /\ pixmaps s' = pixmaps s.
Proof.
  induction es as [|e es IH]; intros s s' G; cbn.
  - intros H; inversion H; subst; auto.
  - destruct (step s e) as [s1|] eqn:E; [|discriminate].
    destruct (deadlock_step s e G E) as (G1 & P1).
    intros H. destruct (IH s1 s' G1 H) as (G2 & P2).
    split; congruence.
Qed.

(** C9, where the code departs from it.  A second request with other
    parameters, issued while the future of the first one is still pending,
    cancels that future inside the block that holds
    [__lastRequestedFutureLock]; the cancellation calls [__pixMapReady]
    at once, which waits for the same lock.  Whatever happens afterwards,
    the GUI thread stays blocked and no pixmap is ever set, not even the
    one of the later request.  (See [latest_request_wins] below for the
    schedules on which the later request does win.) *)
Theorem cancel_of_pending_future_deadlocks (p1 p2 : Params)
  (rest : list Event) (s' : State) :
  Params_eqb p1 p2 = false ->
  run init (second_request_finds_first_pending p1 p2 ++ rest) = Some s' ->
  gui s' = Deadlocked /\ pixmaps s' = [].
Proof.
  intros Hp. rewrite run_app. cbn. rewrite Hp. cbn.
  intros H. apply deadlock_run in H; [|reflexivity]. exact H.
Qed.

Lemma latest_wins_step (later : Future) (s s' : State) (e : Event) :
  no_request e -> step s e = Some s' ->
  (both_in_flight later s -> both_in_flight later s' \/ delivered later s') /\
  (delivered later s -> delivered later s').
Proof.
  intros N. unfold step, both_in_flight, delivered.
  destruct e as [p| |f|f|f|]; cbn in N; try contradiction.
  - destruct (Nat.ltb f (submitted s)); [|discriminate].
    destruct (fstate s f) eqn:Ef; try discriminate;
      intros H; inversion H; subst; clear H; cbn; unfold set_fstate;
      (split; [intros (G & L & S & C & P & X); left|intros (G & L & S & X)]);
      destruct (Nat.eqb later f) eqn:E;
      try (apply Nat.eqb_eq in E; subst f);
      repeat split; auto; try congruence;
      destruct S; congruence.
  - destruct (Nat.ltb f (submitted s)); [|discriminate].
    destruct (fstate s f) eqn:Ef; try discriminate.
    split.
    + intros (G & L & S & C & P & X).
      rewrite G in H. inversion H; subst; clear H.
      unfold pixMapReady_check. cbn. rewrite L.
      destruct (Nat.eqb later f) eqn:E.
      * right. apply Nat.eqb_eq in E. subst f. cbn. unfold set_fstate.
        rewrite Nat.eqb_refl, C. repeat split; auto.
      * left. cbn. unfold set_fstate. rewrite E. repeat split; auto.
    + intros (G & L & S & X). rewrite G in H. inversion H; subst; clear H.
      unfold pixMapReady_check. cbn. rewrite L.
      destruct (Nat.eqb later f) eqn:E.
      * apply Nat.eqb_eq in E. subst f. congruence.
      * cbn. unfold set_fstate. rewrite E. repeat split; auto.
  - destruct (existsb (Nat.eqb f) (checked s)) eqn:Ex; [|discriminate].
    intros H; inversion H; subst; clear H. unfold pixMapReady_store. cbn.
    split.
    + intros (G & L & S & C & P & X). rewrite C in Ex. discriminate.
    + intros (G & L & S & [(C & P & X)|[(C & P & X)|(C & P & X)]]);
        rewrite C in Ex; cbn in Ex; try discriminate.
      rewrite Bool.orb_false_r in Ex. apply Nat.eqb_eq in Ex. subst f.
      rewrite C. cbn. rewrite Nat.eqb_refl. cbn.
      repeat split; auto.
  - split.
    + intros (G & L & S & C & P & X). rewrite G, P in H.
      inversion H; subst; clear H. left. repeat split; auto.
    + intros (G & L & S & X). rewrite G in H.
      destruct X as [(C & P & X)|[(C & P & X)|(C & P & X)]]; rewrite P in H;
        inversion H; subst; clear H; cbn; repeat split; auto.
      right. right. now rewrite X.
Qed.

Lemma latest_wins_when_both_decodes_run (later : Future) (es : list Event) :
  forall s s' : State,
    Forall no_request es -> run s es = Some s' ->
    (both_in_flight later s -> both_in_flight later s' \/ delivered later s') /\
    (delivered later s -> delivered later s').
Proof.
  induction es as [|e es IH]; intros s s' N; cbn.
  - intros H; inversion H; subst. tauto.
  - inversion N as [|? ? Ne Nes]; subst.
    destruct (step s e) as [s1|] eqn:E; [|discriminate].
    intros H. destruct (latest_wins_step later s e Ne E) as (A & B).
    destruct (IH s1 s' Nes H) as (C & D). tauto.
Qed.

(** With the first decoding under way when the second request is issued,
    and both requests complete before a decoding ends, only the pixmap of
    the later request is ever set, in whatever order the decodings end and
    [paint] runs; it has been set once the later decoding is done, its
    callback has returned and no pixmap is waiting. *)
Lemma latest_request_wins (p1 p2 : Params) (rest : list Event) (s' : State) :
  Params_eqb p1 p2 = false -> Forall no_request rest ->
  run init (second_request_finds_first_running p1 p2 ++ rest) = Some s' ->
  (pixmaps s' = [] \/ pixmaps s' = [1%nat]) /\
  (fstate s' 1%nat = FINISHED -> checked s' = [] -> futurePixmap s' = None ->
   pixmaps s' = [1%nat]).
Proof.
  intros Hp N. rewrite run_app. cbn. rewrite Hp. cbn. intros H.
  apply (latest_wins_when_both_decodes_run 1%nat) in H; [|exact N].
  destruct H as (H & _).
  destruct H as [(_ & _ & S & _ & _ & P)
                |(_ & _ & S & [(C & F & P)|[(C & F & P)|(C & F & P)]])].
  - unfold both_in_flight. cbn. repeat split; auto.
  - split; [now left|]. intros E. destruct S; congruence.
  - split; [now left|]. intros _ E. congruence.
  - split; [now left|]. intros _ _ E. congruence.
  - split; [now right|]. auto.
Qed.

(** Both orders of completion. *)
Example first_decoding_ends_first :
  option_map pixmaps
    (run init
       (second_request_finds_first_running Samples.histogram_request
          Samples.clahe_request
        ++ [WorkerStart 1; WorkerDone 0; Paint; WorkerDone 1; WorkerStore 1;
            Paint]))
  = Some [1%nat].
Proof. reflexivity. Qed.

Example later_decoding_ends_first :
  option_map pixmaps
    (run init
       (second_request_finds_first_running Samples.histogram_request
          Samples.clahe_request
        ++ [WorkerStart 1; WorkerDone 1; WorkerStore 1; Paint; WorkerDone 0;
            Paint]))
  = Some [1%nat].
Proof. reflexivity. Qed.

(** A decoding that ends between [add_done_callback] and the block that
    registers its future is taken for a stale one. *)
Example completion_before_registration_is_dropped :
  option_map pixmaps
    (run init
       [RequestBegin Samples.histogram_request; RequestEnd; WorkerStart 0;
        RequestBegin Samples.clahe_request; WorkerStart 1; WorkerDone 1;
        RequestEnd; WorkerDone 0; Paint])
  = Some [].
Proof. reflexivity. Qed.

(** A callback that has found its future to be the last requested one
    stores it even when a later request has been served in between. *)
Example stale_callback_overwrites_later_pixmap :
  option_map pixmaps
    (run init
       [RequestBegin Samples.histogram_request; RequestEnd; WorkerStart 0;
        WorkerDone 0;
        RequestBegin Samples.clahe_request; RequestEnd; WorkerStart 1;
        WorkerDone 1; WorkerStore 1; WorkerStore 0; Paint])
  = Some [0%nat].
Proof. reflexivity. Qed.

Lemma cancel_of_pending_future_deadlocks_witness :
  exists s',
    run init
      (second_request_finds_first_pending Samples.histogram_request
         Samples.clahe_request
       ++ [WorkerStart 1; WorkerDone 1])
    = Some s' /\
    gui s' = Deadlocked /\ pixmaps s' = [].
Proof.
  eexists. split; [reflexivity|].
  apply (@cancel_of_pending_future_deadlocks Samples.histogram_request
           Samples.clahe_request [WorkerStart 1; WorkerDone 1]);
    reflexivity.
Defined.
End PixMapFacts.

(** ** The item over its life *)

Module AerialUIFacts.
Import Aerial AerialUI AerialFacts.

Section Item.
  Context (F : Type) {SF : Scalar F}.

(** *** The two setters, written out *)

Lemma setTransformState_eq (ts : TransformState) (s : AerialImage F) :
  setTransformState ts s =
  mkAerialImage (pos s) (transform s) (offset s) (availability s) ts
    ((2 <=? Availability_value (availability s))%Z
     && negb (TransformState_eqb ts locked))
    (hasFocus s) (opacity s) (saved_opacity s)
    (TransformState_eqb ts locked) (point_pos s) ts
    (row_set_trafoLocked (TransformState_eqb ts locked) (row s))
    (in_scene s) (emitted s) (childItems s) (logger s).
Proof. reflexivity. Qed.

Lemma setPos_eq (p : QPointF F) (s : AerialImage F) :
  setPos p s =
  if QPointF_eqb (pos s) p then s
  else
    mkAerialImage p (transform s) (offset s) (availability s) changed
      (2 <=? Availability_value (availability s))%Z
      (hasFocus s) (opacity s) (saved_opacity s) false
      (if QPointF_eqb (point_pos s) p then point_pos s else p) changed
      (mkRow (usage (row s)) [xp p; yp p] (trafo (row s)) false
         (path (row s)) (previewRect (row s)))
      (in_scene s)
      (if in_scene s then emitted s ++ [aerialFootPrintChanged]
       else emitted s)
      (childItems s) (logger s).
Proof.
  unfold setPos. destruct (QPointF_eqb (pos s) p); [reflexivity|].
  unfold itemChange_ItemPositionHasChanged. rewrite setTransformState_eq.
  unfold point_setPos, emit. destruct s as [? ? ? ? ? ? ? ? ? ? pp ? ? sc ? ? ?].
  cbn. destruct (QPointF_eqb pp p); cbn;
    destruct sc; cbn; rewrite ?andb_true_r; reflexivity.
Qed.

Lemma setTransform_eq (t : QTransform F) (s : AerialImage F) :
  setTransform t s =
  if QTransform_eqb (transform s) t then s
  else
    mkAerialImage (pos s) t (offset s) (availability s) changed
      (2 <=? Availability_value (availability s))%Z
      (hasFocus s) (opacity s) (saved_opacity s) false
      (point_pos s) changed
      (mkRow (usage (row s)) (scenePos (row s))
         [m11 t; m12 t; m13 t; m21 t; m22 t; m23 t; m31 t; m32 t; m33 t]
         false (path (row s)) (previewRect (row s)))
      (in_scene s)
      (if in_scene s then emitted s ++ [aerialFootPrintChanged]
       else emitted s)
      (childItems s) (logger s).
Proof.
  unfold setTransform. destruct (QTransform_eqb (transform s) t);
    [reflexivity|].
  unfold itemChange_ItemTransformHasChanged. rewrite setTransformState_eq.
  unfold emit. destruct s as [? ? ? ? ? ? ? ? ? ? pp ? ? sc ? ? ?].
  cbn. destruct sc; cbn; rewrite ?andb_true_r; reflexivity.
Qed.

(** *** What a call of [__georeference] or a turn of the wheel is made of *)

Section Georeference.
  Variable gdal_Open : string -> option Dataset.
  Variable georef : Dataset -> GdalTrafo F ->
    string + (GdalTrafo F * list (QPointF F) * list (QPointF F)).

Lemma georeference_updates (b : StandardButton) (st : AerialImage F) :
  updates st (snd (georeference gdal_Open georef b st)).
Proof.
  rewrite georeference_run.
  destruct (fst (before_matcher gdal_Open st)) as [c|e];
    [|apply updates_none].
  destruct (georef (p_ds c) (p_gdalTrafo c)) as [exc|[[g a] o]].
  - cbn [snd]. apply updates_logger, updates_none.
  - rewrite after_matcher_run. cbn zeta.
    set (k := fdiv (of_Z pixMapWidth) (of_Z (RasterXSize (p_ds c)))).
    assert (U : updates st
                  (snd (add_items (to_display k (offset st) a)
                          (to_display k (offset st) o) st))).
    { rewrite add_items_childItems. apply updates_childItems, updates_none. }
    destruct (fst (add_items _ _ st)) as [n|e]; [|exact U].
    destruct (feqb k (of_Z 0)); [exact U|].
    cbn [snd]. unfold remove_items. apply updates_childItems.
    destruct b.
    + apply updates_logger, updates_setTransform, updates_setPos, U.
    + apply updates_setTransform, updates_setPos, updates_logger,
        updates_setTransform, updates_setPos, U.
Qed.

Lemma wheelEvent_updates {EF : Elementary F} (ev : WheelEvent F)
  (st : AerialImage F) :
  updates st (snd (wheelEvent ev st)).
Proof.
  unfold wheelEvent.
  destruct (_ || _); [apply updates_none|].
  destruct (altModifier ev).
  - cbn [snd]. apply updates_opacity, updates_saved_opacity, updates_none.
  - destruct (negb (movable st)); [apply updates_none|].
    cbn [snd]. unfold moveBy.
    apply updates_setPos, updates_setTransform, updates_none.
Qed.
End Georeference.

Lemma setOpacity_updates (v : F) (s s' : AerialImage F) :
  updates s s' -> updates s (setOpacity v s').
Proof.
  intros U. unfold setOpacity. destruct (feqb _ _); [exact U|].
  now apply updates_opacity.
Qed.

Lemma mousePressEvent_updates (leftButton alt : bool)
  (s : AerialImage F) :
  updates s (snd (mousePressEvent leftButton alt s)).
Proof.
  unfold mousePressEvent.
  destruct (negb (hasFocus s)); [apply updates_none|].
  destruct leftButton; [|apply updates_none].
  destruct alt.
  - cbn [snd]. apply setOpacity_updates, updates_saved_opacity, updates_none.
  - destruct (movable s); apply updates_none.
Qed.

Lemma mouseMoveEvent_updates (p : QPointF F) (s : AerialImage F) :
  updates s (mouseMoveEvent p s).
Proof.
  unfold mouseMoveEvent. destruct (movable s); [|apply updates_none].
  apply updates_setPos, updates_none.
Qed.

Lemma mouseReleaseEvent_updates (s : AerialImage F) :
  updates s (mouseReleaseEvent s).
Proof. apply setOpacity_updates, updates_none. Qed.

(** *** The invariants under the updates *)

Ltac split_setter E :=
  rewrite E;
  match goal with
  | |- context [if ?b then _ else _] =>
      let B := fresh "B" in destruct b eqn:B
  end.

Lemma updates_coherent (s s' : AerialImage F) :
  updates s s' -> coherent s -> coherent s'.
Proof.
  intros U C. induction U as [s|s s' p _ IH|s s' t _ IH|s s' c _ IH
                              |s s' l _ IH|s s' v _ IH|s s' v _ IH];
    try specialize (IH C); try exact C; try exact IH.
  - split_setter setPos_eq; [exact IH|].
    unfold coherent. cbn. rewrite andb_true_r. repeat split.
  - split_setter setTransform_eq; [exact IH|].
    unfold coherent. cbn. rewrite andb_true_r. repeat split.
Qed.

Lemma updates_stored (s s' : AerialImage F) :
  updates s s' -> stored s -> stored s'.
Proof.
  intros U C. induction U as [s|s s' p _ IH|s s' t _ IH|s s' c _ IH
                              |s s' l _ IH|s s' v _ IH|s s' v _ IH];
    try specialize (IH C); try exact C; try exact IH.
  - split_setter setPos_eq; [exact IH|].
    destruct IH as [_ IH]. split; [reflexivity|exact IH].
  - split_setter setTransform_eq; [exact IH|].
    destruct IH as [IH _]. split; [exact IH|reflexivity].
Qed.

(** The updates leave availability, focus, path and preview alone. *)
Lemma updates_fields (s s' : AerialImage F) :
  updates s s' ->
  availability s' = availability s /\ hasFocus s' = hasFocus s /\
  path (row s') = path (row s) /\
  previewRect (row s') = previewRect (row s) /\
  usage (row s') = usage (row s) /\ offset s' = offset s /\
  in_scene s' = in_scene s.
Proof.
  intros U. induction U as [s|s s' p _ IH|s s' t _ IH|s s' c _ IH
                            |s s' l _ IH|s s' v _ IH|s s' v _ IH];
    try exact IH; [repeat split| |].
  - split_setter setPos_eq; [exact IH|]. exact IH.
  - split_setter setTransform_eq; [exact IH|]. exact IH.
Qed.

Lemma updates_derived (s s' : AerialImage F) :
  updates s s' -> derived s -> derived s'.
Proof.
  intros U. destruct (updates_fields U) as (Ha & _ & Hp & Hr & _).
  unfold derived. now rewrite Ha, Hp, Hr.
Qed.

(** An update that changes position, transform or the state of the
    transform leaves the state [changed]. *)
Lemma updates_changed (s s' : AerialImage F) :
  updates s s' ->
  (pos s' = pos s /\ transform s' = transform s /\
   transformState s' = transformState s /\ row s' = row s /\
   movable s' = movable s /\ lock_visible s' = lock_visible s) \/
  (transformState s' = changed /\ trafoLocked (row s') = false /\
   lock_visible s' = false).
Proof.
  intros U. induction U as [s|s s' p _ IH|s s' t _ IH|s s' c _ IH
                            |s s' l _ IH|s s' v _ IH|s s' v _ IH];
    try exact IH; [left; repeat split| |].
  - split_setter setPos_eq; [exact IH|]. right. repeat split.
  - split_setter setTransform_eq; [exact IH|]. right. repeat split.
Qed.

Lemma updates_original_at_origin (o : Origin F) (s s' : AerialImage F) :
  updates s s' -> original_at_origin o s -> original_at_origin o s'.
Proof.
  intros U C. destruct (updates_changed U) as [(Hp & Ht & Hs & _)|(Hs & _)].
  - unfold original_at_origin, at_origin in *. now rewrite Hp, Ht, Hs.
  - unfold original_at_origin. rewrite Hs. discriminate.
Qed.


(** *** The slots of the menu *)

Lemma setTransformState_coherent ts (s : AerialImage F) :
  coherent (setTransformState ts s).
Proof. unfold coherent. cbn. repeat split. Qed.

Lemma setTransformState_stored ts (s : AerialImage F) :
  stored s -> stored (setTransformState ts s).
Proof. intros C. exact C. Qed.

Lemma setTransformState_derived ts (s : AerialImage F) :
  derived s -> derived (setTransformState ts s).
Proof. intros C. exact C. Qed.


Lemma deriveAvailability_coherent fe (s : AerialImage F) :
  coherent s -> coherent (snd (deriveAvailability fe s)).
Proof.
  intros (C1 & C2 & C3 & _). unfold coherent. cbn. repeat split; assumption.
Qed.


Lemma deriveAvailability_derived fe (s : AerialImage F) :
  (previewRect (row s) <> None -> path (row s) <> None) ->
  derived (snd (deriveAvailability fe s)).
Proof.
  intros K. unfold derived. cbn.
  destruct (path (row s)), (previewRect (row s)); cbn;
    try reflexivity; try (destruct fe; auto; fail).
  now apply K.
Qed.

Lemma findPreview_coherent fe sel (s : AerialImage F) :
  coherent s -> coherent (snd (findPreview_ fe sel s)).
Proof.
  intros C. destruct sel as [d|]; [|exact C].
  apply deriveAvailability_coherent. exact C.
Qed.

Lemma findPreview_stored fe sel (s : AerialImage F) :
  stored s -> stored (snd (findPreview_ fe sel s)).
Proof. intros C. destruct sel as [d|]; exact C. Qed.

Lemma findPreview_derived fe sel (s : AerialImage F) :
  derived s -> derived (snd (findPreview_ fe sel s)).
Proof.
  intros C. destruct sel as [d|]; [|exact C].
  apply deriveAvailability_derived. cbn. discriminate.
Qed.

Lemma findPreview_placement fe sel (s : AerialImage F) :
  let s' := snd (findPreview_ fe sel s) in
  pos s' = pos s /\ transform s' = transform s /\
  transformState s' = transformState s /\
  trafoLocked (row s') = trafoLocked (row s).
Proof. destruct sel as [d|]; repeat split. Qed.

Lemma resetTransform_at_origin (o : Origin F) (s : AerialImage F) :
  QTransform_eqb (originalTransform o) (originalTransform o) = true ->
  QPointF_eqb (origPos o) (origPos o) = true ->
  at_origin o (resetTransform o s) = true.
Proof.
  intros Ht Hp. unfold resetTransform, at_origin.
  cbn [transform pos setTransformState set_transformState set_row
       set_lock_visible setMovability set_movable set_point_transformState].
  rewrite setPos_transform, setTransform_transform, setPos_pos,
    setTransform_pos.
  apply andb_true_intro. split.
  - destruct (QTransform_eqb (transform s) _) eqn:B; assumption.
  - destruct (QPointF_eqb (pos s) _) eqn:B; assumption.
Qed.

Lemma resetTransform_updates (o : Origin F) (s : AerialImage F) :
  QTransform_eqb (originalTransform o) (originalTransform o) = true ->
  QPointF_eqb (origPos o) (origPos o) = true ->
  exists s', updates s s' /\
             resetTransform o s = setTransformState original s' /\
             at_origin o (setTransformState original s') = true.
Proof.
  intros Ht Hp. eexists. split; [|split; [reflexivity|]].
  - apply updates_setPos, updates_setTransform, updates_none.
  - exact (resetTransform_at_origin o s Ht Hp).
Qed.

Lemma deriveAvailability_at_origin (o : Origin F) fe (s : AerialImage F) :
  at_origin o (snd (deriveAvailability fe s)) = at_origin o s.
Proof. reflexivity. Qed.

Lemma setTransformState_previewRect ts (s : AerialImage F) :
  (previewRect (row (setTransformState ts s)) <> None ->
   path (row (setTransformState ts s)) <> None)
  = (previewRect (row s) <> None -> path (row s) <> None).
Proof. reflexivity. Qed.

(** Outside of a scene nothing is emitted. *)
Lemma updates_silent (s s' : AerialImage F) :
  updates s s' -> in_scene s = false -> emitted s' = emitted s.
Proof.
  intros U N. destruct (updates_fields U) as (_ & _ & _ & _ & _ & _ & E).
  rewrite N in E. clear N.
  induction U as [s|s s' p U IH|s s' t U IH|s s' c U IH
                  |s s' l U IH|s s' v U IH|s s' v U IH];
    try reflexivity;
    try (apply IH; destruct (updates_fields U) as (_ & _ & _ & _ & _ & _ & E');
         cbn in E; congruence).
  - destruct (updates_fields U) as (_ & _ & _ & _ & _ & _ & E').
    assert (E2 : in_scene s' = false).
    { revert E. rewrite setPos_eq. destruct (QPointF_eqb _ _); cbn; auto. }
    rewrite setPos_eq. destruct (QPointF_eqb _ _); cbn; rewrite ?E2; auto.
  - destruct (updates_fields U) as (_ & _ & _ & _ & _ & _ & E').
    assert (E2 : in_scene s' = false).
    { revert E. rewrite setTransform_eq.
      destruct (QTransform_eqb _ _); cbn; auto. }
    rewrite setTransform_eq.
    destruct (QTransform_eqb _ _); cbn; rewrite ?E2; auto.
Qed.

(** *** Creation *)

Lemma Some_injective (A : Type) (x y : A) : Some x = Some y -> x = y.
Proof. intros H. now inversion H. Qed.






Lemma init_from_row_updates (o : Origin F) log (r : Row F)
  (s : AerialImage F) :
  init_from_row o log r = Some s ->
  exists s1 ts,
    updates (new_item r log) s1 /\ s = setTransformState ts s1 /\
    (ts = original -> at_origin o s1 = true).
Proof.
  unfold init_from_row.
  destruct (scenePos r) as [|x [|y [|]]]; try discriminate.
  destruct (trafo r)
    as [|a11 [|a12 [|a13 [|a21 [|a22 [|a23 [|a31 [|a32 [|a33 [|]]]]]]]]]];
    try discriminate.
  intros H. apply Some_injective in H. subst s.
  eexists. eexists. split; [|split; [reflexivity|]].
  - apply updates_setTransform, updates_setPos, updates_none.
  - destruct (trafoLocked r); [discriminate|].
    destruct (at_origin o _); [reflexivity|discriminate].
Qed.

(** X11.  A new item is coherent, its availability is the one of its row
    (which keeps the CHECK of the table), it is in state [original] only at
    the original placement, and it has not emitted a signal. *)
Theorem init_establishes (o : Origin F) log (imgId : string)
  (existing : option (Row F)) (imageExists filmDirExists : bool)
  (s : AerialImage F) :
  (forall r, existing = Some r ->
             previewRect r <> None -> path r <> None) ->
  QTransform_eqb (originalTransform o) (originalTransform o) = true ->
  QPointF_eqb (origPos o) (origPos o) = true ->
  init o log imgId existing imageExists filmDirExists = Some s ->
  coherent s /\ derived s /\ original_at_origin o s /\
  in_scene s = false /\ emitted s = [].
Proof.
  intros K Ht Hp. unfold init.
  assert (N : forall r s1,
             updates (new_item r log) s1 ->
             path (row s1) = path r /\ previewRect (row s1) = previewRect r /\
             in_scene s1 = false /\ emitted s1 = []).
  { intros r s1 U.
    destruct (updates_fields U) as (_ & _ & E1 & E2 & _ & _ & E3).
    repeat split; try assumption.
    now apply updates_silent in U. }
  destruct existing as [r|].
  - destruct (init_from_row o log r) as [s1|] eqn:E; [|discriminate].
    intros H. apply Some_injective in H. subst s.
    apply init_from_row_updates in E. destruct E as (s2 & ts & U & -> & O).
    destruct (N r s2 U) as (P1 & P2 & P3 & P4).
    split; [|split; [|split]].
    + apply deriveAvailability_coherent, setTransformState_coherent.
    + apply deriveAvailability_derived. cbn. rewrite P1, P2. now apply K.
    + unfold original_at_origin. cbn. exact O.
    + cbn. split; assumption.
  - intros H. apply Some_injective in H. subst s.
    destruct (resetTransform_updates o
                (new_item (inserted_row o imgId imageExists) log) Ht Hp)
      as (s2 & U & -> & O).
    destruct (N _ _ U) as (P1 & P2 & P3 & P4).
    split; [|split; [|split]].
    + apply deriveAvailability_coherent, setTransformState_coherent.
    + apply deriveAvailability_derived.
      rewrite setTransformState_previewRect, P2. cbn [inserted_row previewRect].
      congruence.
    + intros _. rewrite deriveAvailability_at_origin. exact O.
    + split; assumption.
Qed.

(** *** Sessions *)

Section Session.
  Context {EF : Elementary F}.
  Variable gdal_Open : string -> option Dataset.
  Variable georef : Dataset -> GdalTrafo F ->
    string + (GdalTrafo F * list (QPointF F) * list (QPointF F)).
  Variable o : Origin F.

Local Abbreviation handle := (handle gdal_Open georef o).
Local Abbreviation session := (session gdal_Open georef o).
Local Abbreviation georeference := (georeference gdal_Open georef).

(** An invariant of every input is one of a session. *)
Lemma session_invariant (P : AerialImage F -> Prop) :
  (forall i s, P s -> P (slot gdal_Open georef o i s)) ->
  forall is_ s, P s -> P (session is_ s).
Proof.
  intros H is_. induction is_ as [|i is_ IH]; intros s Hs; [exact Hs|].
  cbn. apply IH. unfold AerialUI.handle.
  destruct (possible i s); [now apply H|exact Hs].
Qed.

Lemma slot_coherent (i : Input F) (s : AerialImage F) :
  coherent s -> coherent (slot gdal_Open georef o i s).
Proof.
  intros C. destruct i as [l a|p| |ev|fe sel| |b| |]; cbn [slot].
  - exact (updates_coherent (mousePressEvent_updates l a s) C).
  - exact (updates_coherent (mouseMoveEvent_updates p s) C).
  - exact (updates_coherent (mouseReleaseEvent_updates s) C).
  - exact (updates_coherent (wheelEvent_updates ev s) C).
  - now apply findPreview_coherent.
  - apply setTransformState_coherent.
  - exact (updates_coherent (georeference_updates gdal_Open georef b s) C).
  - apply setTransformState_coherent.
  - apply setTransformState_coherent.
Qed.

Lemma slot_stored (i : Input F) (s : AerialImage F) :
  stored s -> stored (slot gdal_Open georef o i s).
Proof.
  intros C. destruct i as [l a|p| |ev|fe sel| |b| |]; cbn [slot].
  - exact (updates_stored (mousePressEvent_updates l a s) C).
  - exact (updates_stored (mouseMoveEvent_updates p s) C).
  - exact (updates_stored (mouseReleaseEvent_updates s) C).
  - exact (updates_stored (wheelEvent_updates ev s) C).
  - now apply findPreview_stored.
  - exact C.
  - exact (updates_stored (georeference_updates gdal_Open georef b s) C).
  - exact C.
  - unfold resetTransform. apply setTransformState_stored.
    refine (updates_stored _ C).
    apply updates_setPos, updates_setTransform, updates_none.
Qed.

Lemma slot_derived (i : Input F) (s : AerialImage F) :
  derived s -> derived (slot gdal_Open georef o i s).
Proof.
  intros C. destruct i as [l a|p| |ev|fe sel| |b| |]; cbn [slot].
  - exact (updates_derived (mousePressEvent_updates l a s) C).
  - exact (updates_derived (mouseMoveEvent_updates p s) C).
  - exact (updates_derived (mouseReleaseEvent_updates s) C).
  - exact (updates_derived (wheelEvent_updates ev s) C).
  - now apply findPreview_derived.
  - exact C.
  - exact (updates_derived (georeference_updates gdal_Open georef b s) C).
  - exact C.
  - unfold resetTransform. apply setTransformState_derived.
    refine (updates_derived _ C).
    apply updates_setPos, updates_setTransform, updates_none.
Qed.

Lemma slot_original_at_origin (i : Input F) (s : AerialImage F) :
  QTransform_eqb (originalTransform o) (originalTransform o) = true ->
  QPointF_eqb (origPos o) (origPos o) = true ->
  original_at_origin o s ->
  original_at_origin o (slot gdal_Open georef o i s).
Proof.
  intros Ht Hp C. destruct i as [l a|p| |ev|fe sel| |b| |]; cbn [slot].
  - exact (updates_original_at_origin (mousePressEvent_updates l a s) C).
  - exact (updates_original_at_origin (mouseMoveEvent_updates p s) C).
  - exact (updates_original_at_origin (mouseReleaseEvent_updates s) C).
  - exact (updates_original_at_origin (wheelEvent_updates ev s) C).
  - destruct (findPreview_placement fe sel s) as (E1 & E2 & E3 & _).
    cbn zeta in *. unfold original_at_origin, at_origin in *.
    now rewrite E1, E2, E3.
  - unfold unlock, original_at_origin.
    destruct (at_origin o s) eqn:B; cbn; [|discriminate].
    intros _. exact B.
  - exact (updates_original_at_origin
             (georeference_updates gdal_Open georef b s) C).
  - unfold lock, original_at_origin. cbn. discriminate.
  - intros _. now apply resetTransform_at_origin.
Qed.

(** X5.  Lock overlay, column [trafoLocked], pen of the point and
    movability follow the state of the transform through every session. *)
Theorem session_coherent (is_ : list (Input F)) (s : AerialImage F) :
  coherent s -> coherent (session is_ s).
Proof. apply session_invariant. intros i s'. apply slot_coherent. Qed.

(** X6.  The columns [scenePos] and [trafo] hold position and transform of
    the item through every session. *)
Theorem session_stored (is_ : list (Input F)) (s : AerialImage F) :
  stored s -> stored (session is_ s).
Proof. apply session_invariant. intros i s'. apply slot_stored. Qed.

Lemma session_derived (is_ : list (Input F)) (s : AerialImage F) :
  derived s -> derived (session is_ s).
Proof. apply session_invariant. intros i s'. apply slot_derived. Qed.

(** X7.  Where the comparisons of Qt hold for the original placement itself,
    an item is in state [original] only at that placement. *)
Theorem session_original_at_origin (is_ : list (Input F))
  (s : AerialImage F) :
  QTransform_eqb (originalTransform o) (originalTransform o) = true ->
  QPointF_eqb (origPos o) (origPos o) = true ->
  original_at_origin o s -> original_at_origin o (session is_ s).
Proof.
  intros Ht Hp. apply session_invariant. intros i s'.
  now apply slot_original_at_origin.
Qed.

(** The menu offers 'Auto-georeference' for an unlocked, movable item
    with its image only. *)
Lemma offers_Auto_georeference (s : AerialImage F) :
  offers action_Auto_georeference s = true ->
  availability s = image /\ movable s = true /\
  transformState s <> locked.
Proof.
  unfold offers, contextMenuEvent.
  destruct (transformState s), (movable s), (availability s),
    (usage (row s)); cbn; intros H; try discriminate;
    repeat split; discriminate.
Qed.

(** X9.  With the availability derived from the row, a call of
    [__georeference] from the menu finds the image: after any session the
    row has a path and no preview rectangle where the menu offers
    'Auto-georeference', and the call ends neither in the AssertionError
    about the preview nor in a TypeError. *)
Theorem menu_georeference_has_its_image (is_ : list (Input F))
  (s : AerialImage F) (b : StandardButton) :
  derived s ->
  let s' := session is_ s in
  offers action_Auto_georeference s' = true ->
  previewRect (row s') = None /\ path (row s') <> None /\
  fst (georeference b s')
  <> Raise (AssertionError assert_previewRect_None) /\
  fst (georeference b s') <> Raise TypeError.
Proof.
  intros D s' Hm. apply (session_derived is_) in D. fold s' in D.
  clearbody s'.
  apply offers_Auto_georeference in Hm. destruct Hm as (Ha & _).
  unfold derived in D. rewrite Ha in D.
  destruct (path (row s')) as [p|] eqn:Hp,
    (previewRect (row s')) as [r|] eqn:Hr;
    try discriminate; try tauto; [|destruct D; discriminate].
  split; [reflexivity|]. split; [discriminate|].
  rewrite georeference_run.
  assert (B : forall e, fst (before_matcher gdal_Open s') = Raise e ->
              e <> AssertionError assert_previewRect_None /\ e <> TypeError).
  { unfold before_matcher, assert_, bind, gets, ret, raise. cbn.
    destruct (is_001 (m31 (transform s')) _ _); cbn;
      [|intros e H; inversion H; split; discriminate].
    destruct (is_001 (m13 (transform s')) _ _); cbn;
      [|intros e H; inversion H; split; discriminate].
    rewrite Hr. cbn. rewrite Hp. cbn.
    destruct (gdal_Open p) as [ds|]; cbn;
      [|intros e H; inversion H; split; discriminate].
    destruct (RasterXSize ds =? 0)%Z; cbn; intros e H; inversion H.
    split; discriminate. }
  destruct (fst (before_matcher gdal_Open s')) as [c|e] eqn:E.
  - destruct (georef (p_ds c) (p_gdalTrafo c)) as [exc|[[g a] q]];
      [split; discriminate|].
    rewrite after_matcher_run. cbn zeta.
    destruct (fst (add_items _ _ s')) as [n|e] eqn:A.
    + destruct (feqb _ _); split; discriminate.
    + apply add_items_raises in A. subst e. split; discriminate.
  - destruct (B e eq_refl) as [B1 B2]. cbn.
    split; intros H; inversion H; congruence.
Qed.

(** X8.  A locked transform stays: as long as the user does not choose
    'Unlock transform', no dragging, no turn of the wheel and no action of
    the menu moves, zooms, rotates or unlocks the item. *)
Theorem locked_stays_until_unlocked (is_ : list (Input F))
  (s : AerialImage F) :
  coherent s -> transformState s = locked ->
  Forall (fun i => i <> choose_Unlock_transform F) is_ ->
  let s' := session is_ s in
  pos s' = pos s /\ transform s' = transform s /\
  transformState s' = locked /\ trafoLocked (row s') = true.
Proof.
  intros C L H. cbn zeta. revert s C L.
  induction H as [|i is_ Hi _ IH]; intros s C L.
  - cbn. destruct C as (_ & C2 & _). rewrite L in C2.
    repeat split; assumption.
  - change (session (i :: is_) s) with (session is_ (handle s i)).
    assert (K : pos (handle s i) = pos s /\
                transform (handle s i) = transform s /\
                transformState (handle s i) = locked).
    { unfold AerialUI.handle.
      destruct (possible i s) eqn:Hpos; [|repeat split; assumption].
      assert (C4 : movable s = false).
      { destruct C as (_ & _ & _ & C4). rewrite L in C4. cbn in C4.
        now rewrite andb_false_r in C4. }
      destruct i as [l a|p| |ev|fe sel| |b| |]; cbn [slot].
      - unfold mousePressEvent, setOpacity. rewrite C4.
        destruct (negb (hasFocus s)); [repeat split; assumption|].
        destruct l; [|repeat split; assumption].
        destruct a; [|repeat split; assumption].
        cbn [snd]. destruct (feqb _ _); repeat split; assumption.
      - unfold mouseMoveEvent. rewrite C4. repeat split; assumption.
      - unfold mouseReleaseEvent, setOpacity.
        destruct (feqb _ _); repeat split; assumption.
      - unfold wheelEvent. rewrite C4.
        destruct (_ || _); [repeat split; assumption|].
        destruct (altModifier ev); repeat split; assumption.
      - destruct (findPreview_placement fe sel s) as (E1 & E2 & E3 & _).
        cbn zeta in *. rewrite E1, E2, E3. repeat split; assumption.
      - now contradiction Hi.
      - apply offers_Auto_georeference in Hpos. tauto.
      - exfalso. revert Hpos. unfold possible, entry_of, offers,
          contextMenuEvent. rewrite L.
        destruct (availability s), (usage (row s)); discriminate.
      - exfalso. revert Hpos. unfold possible, entry_of, offers,
          contextMenuEvent. rewrite L.
        destruct (availability s), (usage (row s)); discriminate. }
    destruct K as (K1 & K2 & K3).
    assert (C' : coherent (handle s i)).
    { unfold AerialUI.handle. destruct (possible i s); [|exact C].
      now apply slot_coherent. }
    destruct (IH _ C' K3) as (I1 & I2 & I3 & I4).
    rewrite I1, I2, K1, K2. repeat split; assumption.
Qed.

(** X10.  A call of [__georeference], a turn of the wheel and a move with the
    mouse are noted: each of them leaves position, transform, transform
    state and row of the item as they are, or it leaves the item in state
    [changed], unlocked in the database and without the lock. *)
Theorem changes_are_noted (b : StandardButton) (ev : WheelEvent F)
  (to_ : QPointF F) (s : AerialImage F) :
  let noted s' :=
    (pos s' = pos s /\ transform s' = transform s /\
     transformState s' = transformState s /\ row s' = row s) \/
    (transformState s' = changed /\ trafoLocked (row s') = false /\
     lock_visible s' = false) in
  noted (snd (georeference b s)) /\ noted (snd (wheelEvent ev s)) /\
  noted (mouseMoveEvent to_ s).
Proof.
  cbn zeta.
  assert (N : forall s', updates s s' ->
              (pos s' = pos s /\ transform s' = transform s /\
               transformState s' = transformState s /\ row s' = row s) \/
              (transformState s' = changed /\ trafoLocked (row s') = false /\
               lock_visible s' = false)).
  { intros s' U.
    destruct (updates_changed U) as [(H1 & H2 & H3 & H4 & _)|H'];
      [left; repeat split; assumption|right; exact H']. }
  repeat split; apply N;
    [apply georeference_updates|apply wheelEvent_updates
    |apply mouseMoveEvent_updates].
Qed.
End Session.
End Item.
End AerialUIFacts.

(** ** The item over its life, in real arithmetic *)

Module AerialUIRealFacts.
Import Aerial AerialUI RealModel RealFacts AerialFacts AerialRealFacts
  AerialUIFacts.
Local Open Scope R_scope.

Lemma Reqb_refl (x : R) : Reqb x x = true.
Proof. unfold Reqb. destruct (Req_dec_T x x); congruence. Qed.

Lemma QPointF_eqb_refl (p : QPointF R) : QPointF_eqb p p = true.
Proof. unfold QPointF_eqb. cbn. now rewrite !Reqb_refl. Qed.

Lemma QTransform_eqb_refl (t : QTransform R) : QTransform_eqb t t = true.
Proof. unfold QTransform_eqb. cbn. now rewrite !Reqb_refl. Qed.

(** *** The mouse wheel *)











(** *** Transparency *)

Lemma py_clamp_bounds (v : R) :
  3 / 10 <= py_min (py_max v (3 / 10)) 1 <= 1.
Proof.
  unfold py_min, py_max. cbn.
  unfold Rltb. repeat destruct (Rlt_dec _ _); lra.
Qed.

(** X3.  With Alt the wheel sets the opacity, to a value from 0.3 to 1, and
    nothing else: it cannot make the item invisible, and it works on a
    locked item as well. *)
Theorem alt_wheel_sets_opacity_only (ev : WheelEvent R)
  (st : AerialImage R) :
  (2 <= Availability_value (availability st))%Z ->
  hasFocus st = true -> altModifier ev = true ->
  let st' := snd (wheelEvent ev st) in
  fst (wheelEvent ev st) = true /\
  3 / 10 <= opacity st' <= 1 /\ saved_opacity st' = opacity st' /\
  st' = set_opacity (opacity st') (set_saved_opacity (opacity st') st).
Proof.
  intros Hav Hfocus Halt. cbn zeta. unfold wheelEvent.
  apply Z.ltb_ge in Hav. rewrite Hav, Hfocus, Halt.
  cbn [negb orb fst snd opacity saved_opacity set_opacity set_saved_opacity].
  repeat split; try apply py_clamp_bounds.
Qed.

Lemma qBound_inside (v : R) : 0 <= v <= 1 -> qBound 0 v 1 = v.
Proof.
  intros H. unfold qBound, qMin, py_max. cbn. unfold Rltb.
  repeat destruct (Rlt_dec _ _); lra.
Qed.

Lemma setOpacity_opacity (v : R) (s : AerialImage R) :
  0 <= v <= 1 -> opacity (setOpacity v s) = v.
Proof.
  intros H. unfold setOpacity. cbn [of_Z Scalar_R]. rewrite qBound_inside by exact H.
  destruct (feqb v (opacity s)) eqn:E; [|reflexivity].
  apply Reqb_true in E. now rewrite E.
Qed.

(** X4.  Holding the left button with Alt hides the image until the button
    is released: the opacity is 0 while it is held and afterwards what it
    was before. *)
Theorem alt_press_hides_until_release (s : AerialImage R) :
  hasFocus s = true -> 0 <= opacity s <= 1 ->
  let held := snd (mousePressEvent true true s) in
  fst (mousePressEvent true true s) = true /\
  opacity held = 0 /\ opacity (mouseReleaseEvent held) = opacity s /\
  pos (mouseReleaseEvent held) = pos s /\
  transform (mouseReleaseEvent held) = transform s.
Proof.
  intros Hf Ho. cbn zeta. unfold mousePressEvent. rewrite Hf.
  cbn [negb fst snd].
  split; [reflexivity|]. split; [apply setOpacity_opacity; lra|].
  assert (S : saved_opacity
                (setOpacity 0 (set_saved_opacity (opacity s) s))
              = opacity s).
  { unfold setOpacity. destruct (feqb _ _); reflexivity. }
  unfold mouseReleaseEvent. cbn [of_Z Scalar_R]. rewrite S.
  split; [now apply setOpacity_opacity|].
  unfold setOpacity. repeat destruct (feqb _ _); split; reflexivity.
Qed.

(** *** Reset, creation and reload *)








(** *** Stacking *)




(** *** Runs on the sample image *)

Import Samples UISamples.

Lemma film_item_at_origin : at_origin film_origin Real.film_item = true.
Proof.
  unfold at_origin.
  replace (originalTransform film_origin) with (fromScale (F:=R) 2 2).
  - now rewrite QTransform_eqb_refl, QPointF_eqb_refl.
  - unfold originalTransform, film_origin, pixMapWidth. cbn.
    unfold fromScale, QTransform6. f_equal; lra.
Qed.



Lemma alt_wheel_sets_opacity_only_witness :
  let st' := snd (wheelEvent alt_notch locked_item) in
  fst (wheelEvent alt_notch locked_item) = true /\
  3 / 10 <= opacity st' <= 1 /\ saved_opacity st' = opacity st' /\
  st' = set_opacity (opacity st')
          (set_saved_opacity (opacity st') locked_item).
Proof.
  apply (@alt_wheel_sets_opacity_only alt_notch locked_item).
  - cbn. lia.
  - reflexivity.
  - reflexivity.
Defined.

Lemma session_coherent_witness :
  coherent
    (session Real.open_scan Real.doubled film_origin
       [press_mouse R true false; move_mouse (mkQPointF 30 40);
        release_mouse R; turn_wheel Real.notch;
        choose_Auto_georeference R Yes; choose_Lock_transform R;
        turn_wheel Real.notch]
       Real.film_item).
Proof.
  apply (@session_coherent R _ _ Real.open_scan Real.doubled film_origin).
  repeat split.
Defined.

Lemma session_stored_witness :
  stored
    (session Real.open_scan Real.doubled film_origin
       [move_mouse (mkQPointF 30 40); turn_wheel Real.notch;
        choose_Auto_georeference R Yes; choose_Reset_transform R]
       Real.film_item).
Proof.
  apply (@session_stored R _ _ Real.open_scan Real.doubled film_origin).
  split; reflexivity.
Defined.

Lemma session_original_at_origin_witness :
  original_at_origin film_origin
    (session Real.open_scan Real.doubled film_origin
       [choose_Lock_transform R; choose_Unlock_transform R;
        turn_wheel Real.notch; choose_Reset_transform R]
       Real.film_item).
Proof.
  apply (@session_original_at_origin R _ _ Real.open_scan Real.doubled
           film_origin).
  - apply QTransform_eqb_refl.
  - apply QPointF_eqb_refl.
  - intros _. exact film_item_at_origin.
Defined.

Lemma menu_georeference_has_its_image_witness :
  let s' := session Real.open_scan Real.doubled film_origin
              [turn_wheel alt_notch] Real.film_item in
  previewRect (row s') = None /\ path (row s') <> None /\
  fst (georeference Real.open_scan Real.doubled Yes s')
  <> Raise (AssertionError assert_previewRect_None) /\
  fst (georeference Real.open_scan Real.doubled Yes s') <> Raise TypeError.
Proof.
  apply (@menu_georeference_has_its_image R _ _ Real.open_scan Real.doubled
           film_origin [turn_wheel alt_notch] Real.film_item Yes).
  - reflexivity.
  - reflexivity.
Defined.

Lemma locked_stays_until_unlocked_witness :
  let s' := session Real.open_scan Real.doubled film_origin
              [press_mouse R true false; move_mouse (mkQPointF 30 40);
               release_mouse R; turn_wheel Real.notch;
               choose_Reset_transform R; choose_Auto_georeference R Yes;
               turn_wheel alt_notch]
              locked_item in
  pos s' = pos locked_item /\ transform s' = transform locked_item /\
  transformState s' = locked /\ trafoLocked (row s') = true.
Proof.
  apply (@locked_stays_until_unlocked R _ _ Real.open_scan Real.doubled
           film_origin).
  - repeat split.
  - reflexivity.
  - repeat constructor; discriminate.
Defined.

Lemma init_establishes_witness :
  exists s,
    init film_origin [] "4711/0815.ecw" None true true = Some s /\
    coherent s /\ derived s /\ original_at_origin film_origin s /\
    in_scene s = false /\ emitted s = [].
Proof.
  eexists. split; [reflexivity|].
  apply (@init_establishes R _ film_origin [] "4711/0815.ecw" None true true).
  - discriminate.
  - apply QTransform_eqb_refl.
  - apply QPointF_eqb_refl.
  - reflexivity.
Defined.


Lemma alt_press_hides_until_release_witness :
  let held := snd (mousePressEvent true true Real.film_item) in
  fst (mousePressEvent true true Real.film_item) = true /\
  opacity held = 0 /\
  opacity (mouseReleaseEvent held) = opacity Real.film_item /\
  pos (mouseReleaseEvent held) = pos Real.film_item /\
  transform (mouseReleaseEvent held) = transform Real.film_item.
Proof.
  apply (@alt_press_hides_until_release Real.film_item).
  - reflexivity.
  - cbn. lra.
Defined.

End AerialUIRealFacts.

(** ** Delivery of decoded pixmaps, on every schedule *)

Module PixMapScheduleFacts.
Import PixMap PixMapSchedule PixMapFacts.

Lemma Params_eqb_refl (p : Params) : Params_eqb p p = true.
Proof.
  unfold Params_eqb. destruct p as [pa [[[a b] c] d] r k]. cbn.
  now rewrite String.eqb_refl, !Z.eqb_refl, Nat.eqb_refl.
Qed.

Lemma settled_init : settled init.
Proof.
  split; [|cbn; lia].
  intros f [H|[H|H]]; cbn in H; try contradiction; discriminate.
Qed.

Lemma settled_step (s s' : State) (e : Event) :
  settled s -> step s e = Some s' -> settled s'.
Proof.
  intros [I L]. unfold step.
  destruct e as [p| |f|f|f|].
  - destruct (gui s); try discriminate.
    destruct (displayable s && negb _); intros H; inversion H; subst; clear H;
      (split; [|exact L]); cbn; intros g Hg; destruct (I g Hg) as [I1 I2].
    + unfold set_fstate. destruct (Nat.eqb g (submitted s)) eqn:E;
        [apply Nat.eqb_eq in E; lia|]. split; [assumption|lia].
    + split; assumption.
  - destruct (gui s) as [|f p|]; try discriminate.
    destruct (lastRequestedFuture s) as [l|].
    + destruct (fstate s l) eqn:El; intros H; inversion H; subst; clear H;
        (split; [|exact L]); cbn; intros g Hg; destruct (I g Hg) as [I1 I2];
        try (split; assumption).
      unfold set_fstate. destruct (Nat.eqb g l) eqn:E;
        [apply Nat.eqb_eq in E; subst; congruence|]. split; assumption.
    + intros H; inversion H; subst; clear H. split; [|exact L].
      cbn. intros g Hg. exact (I g Hg).
  - destruct (Nat.ltb f (submitted s)); [|discriminate].
    destruct (fstate s f) eqn:Ef; try discriminate;
      intros H; inversion H; subst; clear H;
      (split; [|exact L]); cbn; intros g Hg; destruct (I g Hg) as [I1 I2];
      unfold set_fstate; (destruct (Nat.eqb g f) eqn:E;
        [apply Nat.eqb_eq in E; subst; congruence|]); split; assumption.
  - destruct (Nat.ltb f (submitted s)) eqn:Lt; [|discriminate].
    apply Nat.ltb_lt in Lt.
    destruct (fstate s f) eqn:Ef; try discriminate.
    assert (K : forall g,
               In g (checked s) \/ futurePixmap s = Some g \/ In g (pixmaps s) ->
               set_fstate f FINISHED (fstate s) g = FINISHED /\
               (g < submitted s)%nat).
    { intros g Hg. destruct (I g Hg) as [I1 I2]. unfold set_fstate.
      destruct (Nat.eqb g f); split; auto. }
    set (s0 := mkState (gui s) (displayable s) (requestedPixMapParams s)
                 (set_fstate f FINISHED (fstate s)) (submitted s)
                 (lastRequestedFuture s) (checked s) (futurePixmap s)
                 (updates s) (pixmaps s)).
    assert (S0 : settled s0) by (split; [exact K|exact L]).
    assert (C : settled (pixMapReady_check f s0)).
    { unfold pixMapReady_check. cbn.
      destruct (lastRequestedFuture s) as [l|]; [|exact S0].
      destruct (Nat.eqb l f); [|exact S0].
      split; [|exact L]. cbn. intros g [[<-|Hg]|Hg].
      - unfold set_fstate. rewrite Nat.eqb_refl. split; [reflexivity|exact Lt].
      - apply K. tauto.
      - apply K. tauto. }
    destruct (gui s); intros H; inversion H; subst; assumption.
  - destruct (existsb (Nat.eqb f) (checked s)) eqn:Ex; [|discriminate].
    intros H; inversion H; subst; clear H. unfold pixMapReady_store. cbn.
    apply existsb_exists in Ex. destruct Ex as (g & Hin & Eg).
    apply Nat.eqb_eq in Eg. subst g. split.
    + cbn. intros g [Hg|[Hg|Hg]].
      * apply filter_In in Hg. apply I. left. tauto.
      * inversion Hg; subst. apply I. now left.
      * apply I. tauto.
    + cbn. destruct (futurePixmap s); lia.
  - destruct (gui s); try discriminate.
    destruct (futurePixmap s) as [f|] eqn:Ef; intros H; inversion H;
      subst; clear H;
      [|unfold settled; rewrite Ef; split; assumption].
    split.
    + cbn. intros g [Hg|[Hg|Hg]]; try discriminate.
      * apply I. now left.
      * apply in_app_or in Hg. destruct Hg as [Hg|[<-|[]]].
        -- apply I. tauto.
        -- apply I. tauto.
    + cbn. rewrite length_app. cbn. lia.
Qed.

Lemma settled_run (es : list Event) :
  forall s s', settled s -> run s es = Some s' -> settled s'.
Proof.
  induction es as [|e es IH]; intros s s' I; cbn.
  - intros H; inversion H; subst; exact I.
  - destruct (step s e) as [s1|] eqn:E; [|discriminate].
    apply IH. eapply settled_step; eassumption.
Qed.

(** X16.  On every schedule, a pixmap that [paint] sets is the result of a
    decoding that has returned: [paint] never waits for a future, nor does
    it meet a cancelled one; and it sets no more pixmaps than [update] has
    been called. *)
Theorem painted_pixmaps_are_decoded (es : list Event) (s : State) :
  run init es = Some s ->
  (forall f, In f (pixmaps s) ->
             fstate s f = FINISHED /\ (f < submitted s)%nat) /\
  (List.length (pixmaps s) <= updates s)%nat.
Proof.
  intros H. destruct (settled_run es settled_init H) as [I L]. split.
  - intros f Hf. apply I. tauto.
  - lia.
Qed.

(** X17.  Asking again for what has been asked for decodes nothing: after a
    request that is over, the same request submits no future and leaves
    everything as it is. *)
Theorem repeated_request_is_not_submitted (p : Params) (s s' : State) :
  request p s s' -> step s' (RequestBegin p) = Some s'.
Proof.
  intros [G H].
  assert (R : requestedPixMapParams s' = Some p).
  { destruct H as [H|H].
    - unfold step in H. destruct (gui s); try discriminate.
      destruct (displayable s && negb _);
        inversion H; subst; [discriminate|reflexivity].
    - cbn [run] in H.
      destruct (step s (RequestBegin p)) as [s1|] eqn:E1; [|discriminate].
      destruct (step s1 RequestEnd) as [s2|] eqn:E2; [|discriminate].
      inversion H; subst s2; clear H.
      unfold step in E1. destruct (gui s); try discriminate.
      destruct (displayable s && negb _); inversion E1; subst s1; clear E1;
        cbn in E2; [|discriminate].
      destruct (lastRequestedFuture s) as [l|];
        [destruct (set_fstate _ _ _ l)|]; inversion E2; subst;
        try reflexivity; cbn in G; discriminate. }
  unfold step. rewrite G, R, Params_eqb_refl, andb_false_r.
  destruct s'; cbn in *; subst; reflexivity.
Qed.

(** *** Runs *)

Import Samples UISamples.

Lemma painted_pixmaps_are_decoded_witness :
  exists s,
    run init one_request = Some s /\ pixmaps s = [0%nat] /\
    (forall f, In f (pixmaps s) ->
               fstate s f = FINISHED /\ (f < submitted s)%nat) /\
    (List.length (pixmaps s) <= updates s)%nat.
Proof.
  eexists. split; [reflexivity|]. split; [reflexivity|].
  apply (@painted_pixmaps_are_decoded one_request). reflexivity.
Defined.

Lemma repeated_request_is_not_submitted_witness :
  exists s',
    run init [RequestBegin histogram_request; RequestEnd] = Some s' /\
    submitted s' = 1%nat /\
    step s' (RequestBegin histogram_request) = Some s'.
Proof.
  eexists. split; [reflexivity|]. split; [reflexivity|].
  apply (@repeated_request_is_not_submitted histogram_request init).
  split; [reflexivity|right; reflexivity].
Defined.
End PixMapScheduleFacts.

(** ** Image or point *)

Module VisibilityFacts.
Import Aerial Visibility.

Lemma react_exclusive (id : string) (v : Shown) (e : Event) :
  image_visible v && point_visible v = false ->
  image_visible (react id v e) && point_visible (react id v e) = false.
Proof.
  intros I. destruct e as [us vs ids u a|imgId show|b|b]; cbn.
  - unfold setVisualization.
    destruct (us u) as [on|]; [|exact I].
    destruct (vs a) as [[| |]|]; cbn; try exact I;
      try reflexivity; now rewrite andb_false_r.
  - unfold showAsImage. destruct (String.eqb id imgId); [|exact I].
    cbn. apply andb_negb_r.
  - destruct b; [reflexivity|exact I].
  - destruct b; [reflexivity|exact I].
Qed.

(** X18.  An aerial is never shown as image and as point at once, whatever
    the settings of the visualization, the requests to show it as image and
    the double clicks that its object and its two items get. *)
Theorem never_image_and_point (id : string) (es : list Event) :
  let v := fold_left (react id) es initial in
  image_visible v && point_visible v = false.
Proof.
  cbn zeta. assert (I : image_visible initial && point_visible initial = false)
    by reflexivity.
  revert I. generalize initial. induction es as [|e es IH]; intros v I.
  - exact I.
  - cbn. apply IH. now apply react_exclusive.
Qed.
End VisibilityFacts.
